(** * web-api-cli: the configured request client and the local listener controller

    A shallow embedding of [src/api.js], of [src/cli/handlers/request.js],
    of [src/server.js] ([startServer], [stopServer]), of
    [src/cli/handlers/server.js], of [src/cli/menu.js] and of [src/app.js],
    with the properties the specification states about them and further
    properties of the code.

    JavaScript values are an inductive type with the language's truthiness,
    [async] functions are state-passing computations whose result is a settled
    or pending promise, [console] output and the requests handed to the
    transport are recorded in the state. *)

From stdpp Require Import base option list strings gmap pretty.
From Stdlib Require Import ZArith Lia.

Local Open Scope Z_scope.
#[local] Set Warnings "-register-all".

(* ===================================================================== *)
(** ** JavaScript values *)
(* ===================================================================== *)

Inductive value : Type :=
| VUndef
| VNull
| VBool (b : bool)
| VNum (n : Z)
| VStr (s : string)
| VArr (items : list value)
| VObj (fields : list (string * value)).

(** ToBoolean: what [if (v)], [!v] and [a || b] look at. *)
Definition truthy (v : value) : bool :=
  match v with
  | VUndef | VNull => false
  | VBool b => b
  | VNum n => negb (n =? 0)
  | VStr s => negb (String.eqb s "")
  | VArr _ | VObj _ => true
  end.

(** [a || b] *)
Definition js_or (a b : value) : value := if truthy a then a else b.

(** A parameter with a default, [f(x = d)]: the default is taken when the
    argument is [undefined], and only then. *)
Definition default_arg (v d : value) : value :=
  match v with VUndef => d | _ => v end.

(** [process.env.NAME]: a string, or [undefined] when the variable is unset. *)
Definition env_value (o : option string) : value :=
  match o with Some s => VStr s | None => VUndef end.

Record Env : Type := mkEnv {
  API_BASE_URL : option string;
  API_KEY : option string;
  ENV_PORT : option string
}.

(** One call of [console.log] or [console.error], with its arguments. *)
Inductive LogLine : Type :=
| LogOut (args : list value)
| LogErr (args : list value).

(* ===================================================================== *)
(** ** Promises and [async] functions *)
(* ===================================================================== *)

Record Response : Type := mkResponse {
  status : Z;
  data : value
}.

(** The error objects the code handles: a message and, when the server
    answered, the response ([error.response]). *)
Record JsError : Type := mkError {
  message : string;
  response : option Response
}.

(** How an awaited promise ends: fulfilled with a value, rejected with an
    error (a [throw] inside an [async] function), or never settled. The
    fourth case is a promise that never settles because the process ended
    while it was awaited, with the exit code: an 'error' event or an
    exception that nothing handles ends a Node process with code 1. *)
Inductive Settled (A : Type) : Type :=
| Fulfilled (a : A)
| Rejected (e : JsError)
| Pending
| Died (code : Z).
Arguments Fulfilled {A} a.
Arguments Rejected {A} e.
Arguments Pending {A}.
Arguments Died {A} code.

(** An [async] function over a mutable state [S]. *)
Definition Async (S A : Type) : Type := S -> Settled A * S.

Definition resolve {S A} (a : A) : Async S A := fun s => (Fulfilled a, s).
Definition throw {S A} (e : JsError) : Async S A := fun s => (Rejected e, s).
Definition never {S A} : Async S A := fun s => (Pending, s).
Definition die {S A} (code : Z) : Async S A := fun s => (Died code, s).

(** [const x = await c; k x]: a rejection or a promise that never settles
    ends the function there, with the state as it is at that point. *)
Definition await {S A B} (c : Async S A) (k : A -> Async S B) : Async S B :=
  fun s =>
    match c s with
    | (Fulfilled a, s') => k a s'
    | (Rejected e, s') => (Rejected e, s')
    | (Pending, s') => (Pending, s')
    | (Died code, s') => (Died code, s')
    end.

(** [promise.then(onFulfilled, onRejected)] *)
Definition then_ {S A B} (c : Async S A)
    (onFulfilled : A -> Async S B) (onRejected : JsError -> Async S B) : Async S B :=
  fun s =>
    match c s with
    | (Fulfilled a, s') => onFulfilled a s'
    | (Rejected e, s') => onRejected e s'
    | (Pending, s') => (Pending, s')
    | (Died code, s') => (Died code, s')
    end.

(** A statement executed for its effect on the state. *)
Definition effect {S} (f : S -> S) : Async S unit := fun s => (Fulfilled tt, f s).

Declare Scope async_scope.
Delimit Scope async_scope with async.
Notation "'let*' x ':=' c 'in' k" := (await c (fun x => k))
  (at level 10, x name, c at level 100, k at level 200) : async_scope.
Notation "c ';;' k" := (await c (fun _ => k))
  (at level 100, k at level 200, right associativity) : async_scope.

(* ===================================================================== *)
(** ** src/api.js *)
(* ===================================================================== *)

Module Api.

Inductive Method : Type := GET | POST | PUT | PATCH | DELETE.

(** An axios request config; every option may be left out. *)
Record RequestConfig : Type := mkConfig {
  url : option string;
  method : option Method;
  baseURL : option string;
  timeout : option Z;
  headers : gmap string string;
  params : value;
  body : value          (* the config's [data] *)
}.

Definition set_headers (h : gmap string string) (c : RequestConfig) : RequestConfig :=
  {| url := url c; method := method c; baseURL := baseURL c; timeout := timeout c;
     headers := h; params := params c; body := body c |}.

(** What the client does to the outside world: lines on the console and
    requests handed to the transport, oldest first. A request is recorded
    as its config: the options of the caller and of this repository's code,
    merged and passed through the request interceptor. What axios does to
    it on its own afterwards is not part of the record: the headers it adds
    (Accept, User-Agent, the content type of an object body), its reading
    of header names without regard to case, and the text it makes of the
    body. *)
Record World : Type := mkWorld {
  console : list LogLine;
  wire : list RequestConfig
}.

Definition console_error (args : list value) : Async World unit :=
  effect (fun w => {| console := console w ++ [LogErr args]; wire := wire w |}).

Definition transmit (c : RequestConfig) : Async World unit :=
  effect (fun w => {| console := console w; wire := wire w ++ [c] |}).

(** *** The axios library, as far as api.js relies on it *)

(** What the transport (axios's adapter) gives back for a request: a
    response, whose [data] is already decoded, or no response at all
    (connection refused, DNS failure, the timeout elapsing), with the
    message of the error. *)
Inductive WireResult : Type :=
| Reply (r : Response)
| NoReply (msg : string).

Definition Adapter : Type := RequestConfig -> WireResult.

(** axios's default [validateStatus]. *)
Definition validateStatus (s : Z) : bool := (200 <=? s) && (s <? 300).

(** The error axios creates for a response it does not accept. *)
Definition request_failed (r : Response) : JsError :=
  {| message := "Request failed with status code " +:+ pretty (status r);
     response := Some r |}.

(** axios's [settle]: a response whose status passes [validateStatus] (or is
    missing, which reads as 0) fulfils the promise, any other rejects it with
    an error that carries the response. *)
Definition settle (r : Response) : Async World Response :=
  if negb (truthy (VNum (status r))) || validateStatus (status r)
  then resolve r
  else throw (request_failed r).

Definition or_else {A} (a b : option A) : option A :=
  match a with Some _ => a | None => b end.

(** axios's [mergeConfig defaults config]: [url], [method] and [data] come
    from the call's config only, header maps are merged with the call's
    entries winning, every other option falls back on the defaults. Header
    names are merged as they are spelled. *)
Definition mergeConfig (defaults config : RequestConfig) : RequestConfig :=
  {| url := url config;
     method := method config;
     baseURL := or_else (baseURL config) (baseURL defaults);
     timeout := or_else (timeout config) (timeout defaults);
     headers := headers config ∪ headers defaults;
     params := default_arg (params config) (params defaults);
     body := body config |}.

(** *** The configured instance *)

(** [axios.create({ baseURL: process.env.API_BASE_URL, timeout: 30000,
                    headers: { 'Content-Type': 'application/json' } })] *)
Definition api_defaults (env : Env) : RequestConfig :=
  {| url := None; method := None;
     baseURL := API_BASE_URL env;
     timeout := Some 30000;
     headers := {[ "Content-Type" := "application/json" ]};
     params := VUndef; body := VUndef |}.

(** The request interceptor:
    [if (process.env.API_KEY) config.headers.Authorization = `Bearer ${process.env.API_KEY}`] *)
Definition request_interceptor (env : Env) (config : RequestConfig) : RequestConfig :=
  match API_KEY env with
  | Some key =>
      if truthy (VStr key)
      then set_headers (<["Authorization" := "Bearer " +:+ key]> (headers config)) config
      else config
  | None => config
  end.

(** [error.response?.status] and [error.response?.data] *)
Definition response_status (e : JsError) : value :=
  match response e with Some r => VNum (status r) | None => VUndef end.
Definition response_data (e : JsError) : value :=
  match response e with Some r => data r | None => VUndef end.

(** The response interceptor's rejection handler:
    [console.error('API Error:', error.response?.status,
                   error.response?.data || error.message); throw error] *)
Definition response_rejected (error : JsError) : Async World Response :=
  (console_error [VStr "API Error:"; response_status error;
                  js_or (response_data error) (VStr (message error))] ;;
   throw error)%async.

(** The fulfilment handler: [(response) => response]. *)
Definition response_fulfilled (r : Response) : Async World Response := resolve r.

(** The request as it leaves the instance: defaults merged in, then the
    request interceptor. *)
Definition outbound (env : Env) (config : RequestConfig) : RequestConfig :=
  request_interceptor env (mergeConfig (api_defaults env) config).

(** The error of a request that got no response. *)
Definition no_response (msg : string) : JsError :=
  {| message := msg; response := None |}.

(** [api.request(config)]: merge, request interceptor, transport, [settle],
    response interceptor. *)
Definition api_request (env : Env) (adapter : Adapter) (config : RequestConfig)
    : Async World Response :=
  let sent := outbound env config in
  then_ (transmit sent ;;
         match adapter sent with
         | Reply r => settle r
         | NoReply msg => throw (no_response msg)
         end)%async
        response_fulfilled response_rejected.

(** The verb shorthands of the instance: [api.get(url, config)],
    [api.delete(url, config)], [api.post(url, data)], ... *)
Definition api_verb (env : Env) (adapter : Adapter)
    (m : Method) (endpoint : string) (prm dat : value) : Async World Response :=
  api_request env adapter
    {| url := Some endpoint; method := Some m; baseURL := None; timeout := None;
       headers := ∅; params := prm; body := dat |}.

(** *** The exported request templates *)

Section Templates.
Variable env : Env.
Variable adapter : Adapter.

(** [export async function get(endpoint, params = {})] *)
Definition get (endpoint : string) (params : value) : Async World value :=
  (let* response := api_verb env adapter GET endpoint
                      (default_arg params (VObj [])) VUndef in
   resolve (data response))%async.

(** [export async function post(endpoint, data = {})] *)
Definition post (endpoint : string) (dat : value) : Async World value :=
  (let* response := api_verb env adapter POST endpoint VUndef
                      (default_arg dat (VObj [])) in
   resolve (data response))%async.

(** [export async function put(endpoint, data = {})] *)
Definition put (endpoint : string) (dat : value) : Async World value :=
  (let* response := api_verb env adapter PUT endpoint VUndef
                      (default_arg dat (VObj [])) in
   resolve (data response))%async.

(** [export async function patch(endpoint, data = {})] *)
Definition patch (endpoint : string) (dat : value) : Async World value :=
  (let* response := api_verb env adapter PATCH endpoint VUndef
                      (default_arg dat (VObj [])) in
   resolve (data response))%async.

(** [export async function del(endpoint)] *)
Definition del (endpoint : string) : Async World value :=
  (let* response := api_verb env adapter DELETE endpoint VUndef VUndef in
   resolve (data response))%async.

(** [export async function request(config)] *)
Definition request (config : RequestConfig) : Async World value :=
  (let* response := api_request env adapter config in
   resolve (data response))%async.

(** The [switch (method)] of [makeRequest] (handlers/request.js): which
    template serves which verb, the one place where a request is executed
    from its method, endpoint and body. [bdy] is what the handler parsed
    for post, put and patch; get and del are called with the endpoint
    only. *)
Definition makeRequest_switch (m : Method) (endpoint : string) (bdy : value) : Async World value :=
  match m with
  | GET => get endpoint VUndef
  | POST => post endpoint bdy
  | PUT => put endpoint bdy
  | PATCH => patch endpoint bdy
  | DELETE => del endpoint
  end.
End Templates.

(** The transport step of a bare [axios(config)] call: no instance
    defaults, no interceptors. The headers axios adds by itself are not in
    the config recorded. *)
Definition axios_call (adapter : Adapter) (sent : RequestConfig) : Async World Response :=
  (transmit sent ;;
   match adapter sent with
   | Reply r => settle r
   | NoReply msg => throw (no_response msg)
   end)%async.

(** An options object with nothing in it, [{}]. *)
Definition no_options : RequestConfig :=
  {| url := None; method := None; baseURL := None; timeout := None;
     headers := ∅; params := VUndef; body := VUndef |}.

(** [export async function rawRequest(url, options = {})]:
    [axios({ url, timeout: 30000, ...options })]. The spread comes last, so
    an option of the same name replaces [url] and [timeout]. *)
Definition rawRequest (adapter : Adapter) (target : string) (options : RequestConfig)
    : Async World value :=
  (let* response :=
     axios_call adapter
       {| url := or_else (url options) (Some target);
          method := method options;
          baseURL := baseURL options;
          timeout := or_else (timeout options) (Some 30000);
          headers := headers options;
          params := params options;
          body := body options |} in
   resolve (data response))%async.

(** *** Vocabulary of the properties *)

(** The config each template hands to the instance, by verb. *)
Definition template_config (m : Method) (endpoint : string) (bdy : value) : RequestConfig :=
  {| url := Some endpoint; method := Some m; baseURL := None; timeout := None;
     headers := ∅;
     params := match m with GET => VObj [] | _ => VUndef end;
     body := match m with
             | POST | PUT | PATCH => default_arg bdy (VObj [])
             | GET | DELETE => VUndef
             end |}.

(** The status code of a response that is not a 2xx one. Every HTTP
    response has a status code; 0 is how a missing one reads. *)
Definition non2xx (s : Z) : Prop := s <> 0 /\ ~ (200 <= s < 300).

(** The line the response interceptor writes for an error. *)
Definition api_error_line (e : JsError) : LogLine :=
  LogErr [VStr "API Error:"; response_status e;
          js_or (response_data e) (VStr (message e))].

Definition after_call (w : World) (sent : RequestConfig) (lines : list LogLine) : World :=
  {| console := console w ++ lines; wire := wire w ++ [sent] |}.

(** Sample inputs. *)
Definition sample_env : Env :=
  {| API_BASE_URL := Some "https://api.example.test"; API_KEY := Some "s3cret";
     ENV_PORT := None |}.
Definition anonymous_env : Env :=
  {| API_BASE_URL := Some "https://api.example.test"; API_KEY := None;
     ENV_PORT := None |}.
Definition quiet : World := {| console := []; wire := [] |}.
Definition always (r : WireResult) : Adapter := fun _ => r.
Definition not_found : Response :=
  {| status := 404; data := VObj [("error", VStr "not found")] |}.

(** Header names are read without regard to case. *)
Definition lower_char (c : Ascii.ascii) : Ascii.ascii :=
  let n := Ascii.nat_of_ascii c in
  if ((65 <=? n) && (n <=? 90))%nat then Ascii.ascii_of_nat (n + 32) else c.

Fixpoint lower_name (s : string) : string :=
  match s with
  | EmptyString => EmptyString
  | String c rest => String (lower_char c) (lower_name rest)
  end.

(** The headers of a caller that spell the two names this code sets,
    Authorization and Content-Type, the way this code spells them,
    whenever they use them. *)
Definition plainly_named (h : gmap string string) : Prop :=
  forall k, is_Some (h !! k) ->
    (lower_name k = "authorization" -> k = "Authorization")
    /\ (lower_name k = "content-type" -> k = "Content-Type").

(** A config of the caller's own, with a timeout and two headers. *)
Definition custom_config : RequestConfig :=
  {| url := Some "/reports"; method := Some GET; baseURL := None; timeout := Some 5000;
     headers := <["Authorization" := "Basic dXNlcg=="]> {[ "X-Trace" := "on" ]};
     params := VUndef; body := VUndef |}.

End Api.

(* ===================================================================== *)
(** ** src/server.js and src/cli/handlers/server.js *)
(* ===================================================================== *)

Module Server.

(** The calls made on server objects, in order. *)
Inductive SocketOp : Type :=
| Listen (h : nat)
| Close (h : nat).

(** The process as the listener code sees it. A server object (the value
    [app.listen] returns) is identified by its creation number. *)
Record Proc : Type := mkProc {
  server : option nat;        (* [let server = null] of handlers/server.js *)
  console : list LogLine;
  created : nat;              (* server objects created so far *)
  listening : gset nat;       (* server objects that hold a bound socket *)
  socket_ops : list SocketOp
}.

Definition initial : Proc :=
  {| server := None; console := []; created := 0; listening := ∅; socket_ops := [] |}.

(** What lies outside the repository: Node, Express and the operating
    system. [can_bind] says whether a [listen] call succeeds, given the
    server objects of this process that already listen. When it does not,
    the other two fields say how it fails. [port_error] is Node's check of
    the port it is given: for a port it does not accept (a number out of
    range), [listen] throws this error at once. Otherwise the failure (the
    port is in use) comes later, as an 'error' event on the server object,
    and [calls_back_on_error] says whether the callback given to [listen] is
    then invoked, with the error as its argument, or left uncalled. *)
Record Platform : Type := mkPlatform {
  can_bind : gset nat -> bool;
  calls_back_on_error : bool;
  port_error : value -> option JsError
}.

(** What becomes of a [listen] call and of its callback. *)
Inductive Listened : Type :=
| Called                   (* the callback is invoked *)
| Uncalled                 (* an 'error' event, the callback stays uncalled *)
| Threw (e : JsError).     (* [listen] threw *)

Definition console_log (args : list value) : Async Proc unit :=
  effect (fun p => {| server := server p; console := console p ++ [LogOut args];
                      created := created p; listening := listening p;
                      socket_ops := socket_ops p |}).

Definition get_server : Async Proc (option nat) :=
  fun p => (Fulfilled (server p), p).

Definition set_server (s : option nat) : Async Proc unit :=
  effect (fun p => {| server := s; console := console p;
                      created := created p; listening := listening p;
                      socket_ops := socket_ops p |}).

(** [const PORT = process.env.PORT || 3000] *)
Definition PORT (env : Env) : value := js_or (env_value (ENV_PORT env)) (VNum 3000).

(** [`${PORT}`]; [PORT] is a string or the number 3000. *)
Definition port_text (env : Env) : string :=
  match PORT env with
  | VStr s => s
  | VNum n => pretty n
  | _ => ""
  end.

(** [app.listen(PORT, callback)]: a new server object is created and asked
    to listen. The result is the object and what becomes of the call; when
    the port is not granted nothing is bound. *)
Definition app_listen (env : Env) (pf : Platform) (p : Proc) : nat * Listened * Proc :=
  let h := created p in
  let granted := can_bind pf (listening p) in
  (h,
   if granted then Called
   else match port_error pf (PORT env) with
        | Some e => Threw e
        | None => if calls_back_on_error pf then Called else Uncalled
        end,
   {| server := server p; console := console p;
      created := S h;
      listening := if granted then {[h]} ∪ listening p else listening p;
      socket_ops := socket_ops p ++ [Listen h] |}).

(** [server.close(callback)]: the server stops listening; the callback is
    invoked once it has closed (with an error argument when it was not
    listening, which the callers here do not look at). Connections that
    stay open and delay the callback are not modelled. *)
Definition server_close (h : nat) : Async Proc unit :=
  effect (fun p => {| server := server p; console := console p;
                      created := created p;
                      listening := listening p ∖ {[h]};
                      socket_ops := socket_ops p ++ [Close h] |}).

(** [export function startServer()]: [new Promise((resolve) => { const
    server = app.listen(PORT, () => { console.log(...); resolve(server) }) })].
    The promise is resolved in the listen callback and nowhere else. An
    exception of [app.listen] is thrown inside the executor and rejects the
    promise. No listener is registered for the 'error' event of the server:
    when the event comes and the callback stays uncalled, the promise never
    settles and the unhandled event ends the process with code 1. *)
Definition startServer (env : Env) (pf : Platform) : Async Proc nat :=
  fun p =>
    let '(srv, outcome, p1) := app_listen env pf p in
    match outcome with
    | Called =>
        (console_log [VStr ("Server listening on port " +:+ port_text env)] ;;
         resolve srv)%async p1
    | Threw e => throw e p1
    | Uncalled => die 1 p1
    end.

(** [export function stopServer(server)] *)
Definition stopServer (srv : nat) : Async Proc unit :=
  (server_close srv ;;
   console_log [VStr "Server stopped"] ;;
   resolve tt)%async.

(** [export async function handleStartServer()] *)
Definition handleStartServer (env : Env) (pf : Platform) : Async Proc unit :=
  (let* current := get_server in
   match current with
   | Some _ => console_log [VStr "Server is already running"] ;; resolve tt
   | None => let* started := startServer env pf in set_server (Some started)
   end)%async.

(** [export async function handleStopServer()] *)
Definition handleStopServer : Async Proc unit :=
  (let* current := get_server in
   match current with
   | None => console_log [VStr "Server is not running"] ;; resolve tt
   | Some srv => stopServer srv ;; set_server None
   end)%async.

(** [export async function cleanup()] *)
Definition cleanup : Async Proc unit :=
  (let* current := get_server in
   match current with
   | Some srv => stopServer srv
   | None => resolve tt
   end)%async.

(** [export function isServerRunning()]: [server !== null] *)
Definition isServerRunning (p : Proc) : bool :=
  match server p with Some _ => true | None => false end.

(** The three operations of the controller, and a sequence of them run one
    after the other, each awaited before the next. *)
Inductive Command : Type := Start | Stop | Cleanup.

Definition perform (env : Env) (pf : Platform) (c : Command) : Async Proc unit :=
  match c with
  | Start => handleStartServer env pf
  | Stop => handleStopServer
  | Cleanup => cleanup
  end.

Fixpoint run (env : Env) (pf : Platform) (cs : list Command) : Async Proc unit :=
  match cs with
  | [] => resolve tt
  | c :: rest => (perform env pf c ;; run env pf rest)%async
  end.

(** A port that one listener at a time can hold, and a port that another
    process holds; both are ports that [listen] accepts. *)
Definition exclusive_port (cb : bool) : Platform :=
  {| can_bind := fun held => bool_decide (held = ∅); calls_back_on_error := cb;
     port_error := fun _ => None |}.

Definition port_in_use (cb : bool) : Platform :=
  {| can_bind := fun _ => false; calls_back_on_error := cb;
     port_error := fun _ => None |}.

(** The error of [listen] for a port number out of range, and a platform
    that accepts the port numbers up to 65535 and the default port only. *)
Definition bad_port : JsError :=
  {| message := "options.port should be >= 0 and < 65536"; response := None |}.

Definition checks_port_range : Platform :=
  {| can_bind := fun _ => false; calls_back_on_error := false;
     port_error := fun port =>
       match port with
       | VStr "99999" => Some bad_port
       | _ => None
       end |}.

(** *** Vocabulary of the properties *)

(** The process after one [console.log] of a string. *)
Definition logged (p : Proc) (line : string) : Proc :=
  {| server := server p; console := console p ++ [LogOut [VStr line]];
     created := created p; listening := listening p; socket_ops := socket_ops p |}.

(** Every server object of the process that listens is the one the
    controller holds in [server]. *)
Definition owns_listeners (p : Proc) : Prop :=
  forall h, h ∈ listening p -> server p = Some h.

Definition sample_env : Env :=
  {| API_BASE_URL := None; API_KEY := None; ENV_PORT := None |}.

(** An environment that asks for a port number out of range. *)
Definition port_99999 : Env :=
  {| API_BASE_URL := None; API_KEY := None; ENV_PORT := Some "99999" |}.

(** The server objects that were asked to listen, in the order of the calls. *)
Definition listen_targets (ops : list SocketOp) : list nat :=
  flat_map (fun op => match op with Listen h => [h] | Close _ => [] end) ops.

(** The calls on server objects are in order: the n-th listen call is on
    the n-th object created, the object held in [server] was asked to
    listen, and every close call comes after a listen call on the same
    object. *)
Definition disciplined (p : Proc) : Prop :=
  listen_targets (socket_ops p) = seq 0 (created p)
  /\ (forall h, server p = Some h -> Listen h ∈ socket_ops p)
  /\ (forall pre post h, socket_ops p = pre ++ Close h :: post -> Listen h ∈ pre).

(** The controller's variable names a server object exactly when that
    object listens, and nothing else listens. *)
Definition tracks_listener (p : Proc) : Prop :=
  listening p = match server p with Some h => {[h]} | None => ∅ end.

End Server.

(* ===================================================================== *)
(** ** src/cli/handlers/request.js, src/cli/menu.js and src/app.js *)
(* ===================================================================== *)

Module Cli.

(** [String.prototype.toUpperCase], on ASCII letters. *)
Definition upper_char (c : Ascii.ascii) : Ascii.ascii :=
  let n := Ascii.nat_of_ascii c in
  if ((97 <=? n) && (n <=? 122))%nat then Ascii.ascii_of_nat (n - 32) else c.

Fixpoint toUpperCase (s : string) : string :=
  match s with
  | EmptyString => EmptyString
  | String c rest => String (upper_char c) (toUpperCase rest)
  end.

(** The [value] of each choice of the method prompt. *)
Definition method_value (m : Api.Method) : string :=
  match m with
  | Api.GET => "get"
  | Api.POST => "post"
  | Api.PUT => "put"
  | Api.PATCH => "patch"
  | Api.DELETE => "delete"
  end.

(** [['post', 'put', 'patch'].includes(method)] *)
Definition takes_body (m : Api.Method) : bool :=
  existsb (String.eqb (method_value m)) ["post"; "put"; "patch"].

Definition newline : string := String (Ascii.ascii_of_nat 10) EmptyString.

(** What the user answered to the prompts of [makeRequest]. [body_input] is
    read only when the body prompt is shown; an empty answer there comes
    back from the prompt as its default, the text of an empty object. *)
Record Answers : Type := mkAnswers {
  method_choice : Api.Method;
  endpoint_input : string;
  body_input : string
}.

Definition world_log (args : list value) : Async Api.World unit :=
  effect (fun w => {| Api.console := Api.console w ++ [LogOut args];
                      Api.wire := Api.wire w |}).

(** [try { c } catch (error) { handler error }] *)
Definition try_catch {S A} (c : Async S A) (handler : JsError -> Async S A) : Async S A :=
  then_ c resolve handler.

Section MakeRequest.
Variable env : Env.
Variable adapter : Api.Adapter.
(** [JSON.parse]: the value, or nothing when it throws a SyntaxError. *)
Variable JSON_parse : string -> option value.
(** [JSON.stringify(result, null, 2)] *)
Variable JSON_stringify : value -> value.

(** [let body = null; if ([...].includes(method)) { ... try { body =
    JSON.parse(bodyInput) } catch { console.error(...); body = {} } }] *)
Definition read_body (a : Answers) : Async Api.World value :=
  if takes_body (method_choice a)
  then match JSON_parse (body_input a) with
       | Some parsed => resolve parsed
       | None =>
           (Api.console_error [VStr "Invalid JSON, using empty object"] ;;
            resolve (VObj []))%async
       end
  else resolve VNull.

(** [export async function makeRequest()], from the answers on. *)
Definition makeRequest (a : Answers) : Async Api.World unit :=
  (let* bdy := read_body a in
   world_log [VStr (newline +:+ "Making " +:+ toUpperCase (method_value (method_choice a))
                    +:+ " request to " +:+ endpoint_input a +:+ "..." +:+ newline)] ;;
   try_catch
     (let* result := Api.makeRequest_switch env adapter (method_choice a)
                       (endpoint_input a) bdy in
      world_log [VStr "Response:"] ;;
      world_log [JSON_stringify result])
     (fun error => Api.console_error [VStr "Request failed:"; VStr (message error)]) ;;
   world_log [VStr ""])%async.
End MakeRequest.

(** The whole process: one console, the requests sent, the controller's
    [server] variable with the server objects, and the exit code once the
    process has ended. *)
Record App : Type := mkApp {
  shown : list LogLine;
  requests : list Api.RequestConfig;
  held : option nat;
  made : nat;
  bound : gset nat;
  calls : list Server.SocketOp;
  exit_code : option Z
}.

Definition initial_app : App :=
  {| shown := []; requests := []; held := None; made := 0%nat; bound := ∅;
     calls := []; exit_code := None |}.

(** The part of the process the request code works on, and the part the
    listener code works on; both write to the same console. *)
Definition world_of (s : App) : Api.World :=
  {| Api.console := shown s; Api.wire := requests s |}.

Definition proc_of (s : App) : Server.Proc :=
  {| Server.server := held s; Server.console := shown s; Server.created := made s;
     Server.listening := bound s; Server.socket_ops := calls s |}.

Definition put_world (w : Api.World) (s : App) : App :=
  {| shown := Api.console w; requests := Api.wire w; held := held s; made := made s;
     bound := bound s; calls := calls s; exit_code := exit_code s |}.

Definition put_proc (p : Server.Proc) (s : App) : App :=
  {| shown := Server.console p; requests := requests s; held := Server.server p;
     made := Server.created p; bound := Server.listening p;
     calls := Server.socket_ops p; exit_code := exit_code s |}.

Definition in_world {A} (c : Async Api.World A) : Async App A :=
  fun s => let '(r, w) := c (world_of s) in (r, put_world w s).

(** The process has ended when the outcome says so, with that exit code. *)
Definition ended {A} (r : Settled A) (s : App) : App :=
  match r with
  | Died code =>
      {| shown := shown s; requests := requests s; held := held s; made := made s;
         bound := bound s; calls := calls s; exit_code := Some code |}
  | _ => s
  end.

Definition in_proc {A} (c : Async Server.Proc A) : Async App A :=
  fun s => let '(r, p) := c (proc_of s) in (r, ended r (put_proc p s)).

(** A promise that nothing awaits and nothing catches: when it is rejected,
    the unhandled rejection ends the process with code 1. *)
Definition unhandled {A} (c : Async App A) : Async App A :=
  fun s =>
    match c s with
    | (Rejected e, s') => (Died 1, ended (Died (A:=A) 1) s')
    | other => other
    end.

(** [process.exit(code)]: the process ends; nothing after the call runs. *)
Definition process_exit {A} (code : Z) : Async App A :=
  fun s => (Pending,
            {| shown := shown s; requests := requests s; held := held s; made := made s;
               bound := bound s; calls := calls s; exit_code := Some code |}).

(** What the user picks in the main menu. *)
Inductive Choice : Type :=
| ChooseRequest (a : Answers)
| ChooseStartServer
| ChooseStopServer
| ChooseExit.

Section Menu.
Variable env : Env.
Variable adapter : Api.Adapter.
Variable JSON_parse : string -> option value.
Variable JSON_stringify : value -> value.
Variable pf : Server.Platform.

(** The [switch (action)] of [mainMenu]. *)
Definition route (action : Choice) : Async App unit :=
  match action with
  | ChooseRequest a => in_world (makeRequest env adapter JSON_parse JSON_stringify a)
  | ChooseStartServer => in_proc (Server.handleStartServer env pf)
  | ChooseStopServer => in_proc Server.handleStopServer
  | ChooseExit =>
      (in_proc Server.cleanup ;;
       in_proc (Server.console_log [VStr "Goodbye!"]) ;;
       process_exit 0)%async
  end.

(** [export async function mainMenu()], run on the choices the user makes,
    in order. Each round awaits the prompt, routes the choice and calls
    [mainMenu] again; when the choices are used up the prompt waits. *)
Fixpoint mainMenu (script : list Choice) : Async App unit :=
  match script with
  | [] => never
  | action :: rest => (route action ;; mainMenu rest)%async
  end.

(** app.js: the banner, then [mainMenu();], a call whose promise is
    neither awaited nor caught. *)
Definition app (script : list Choice) : Async App unit :=
  (in_proc (Server.console_log [VStr ("=== API Tester CLI ===" +:+ newline)]) ;;
   unhandled (mainMenu script))%async.
End Menu.

(** app.js: [process.on('SIGINT', async () => { await cleanup(); process.exit(0); })] *)
Definition on_SIGINT : Async App unit :=
  (in_proc Server.cleanup ;; process_exit 0)%async.

(** *** Vocabulary of the properties *)

(** The body [makeRequest] passes on, and the line it writes when the
    body text does not parse. *)
Definition chosen_body (JSON_parse : string -> option value) (a : Answers) : value :=
  if takes_body (method_choice a)
  then match JSON_parse (body_input a) with Some parsed => parsed | None => VObj [] end
  else VNull.

Definition body_lines (JSON_parse : string -> option value) (a : Answers) : list LogLine :=
  if takes_body (method_choice a)
  then match JSON_parse (body_input a) with
       | Some _ => []
       | None => [LogErr [VStr "Invalid JSON, using empty object"]]
       end
  else [].

Definition announcement (a : Answers) : LogLine :=
  LogOut [VStr (newline +:+ "Making " +:+ toUpperCase (method_value (method_choice a))
                +:+ " request to " +:+ endpoint_input a +:+ "..." +:+ newline)].

(** The request [makeRequest] sends for the answers. *)
Definition request_for (env : Env) (JSON_parse : string -> option value) (a : Answers)
    : Api.RequestConfig :=
  Api.outbound env
    (Api.template_config (method_choice a) (endpoint_input a) (chosen_body JSON_parse a)).

(** What a round of the menu keeps: the listeners belong to the controller,
    and where the process has ended, with code 0 or with code 1, nothing
    listens. *)
Definition settled_state (s : App) : Prop :=
  Server.owns_listeners (proc_of s)
  /\ (exit_code s = None
      \/ ((exit_code s = Some 0 \/ exit_code s = Some 1) /\ bound s = ∅)).

(** How a round of the menu, and the menu itself, can end: going on or
    waiting with the process alive, rejected by a start that threw with
    nothing listening, or with the process ended and nothing listening. *)
Definition ends_well (r : Settled unit) (s : App) : Prop :=
  Server.owns_listeners (proc_of s)
  /\ match r with
     | Fulfilled _ => exit_code s = None
     | Rejected _ => exit_code s = None /\ bound s = ∅
     | Pending => exit_code s = None \/ (exit_code s = Some 0 /\ bound s = ∅)
     | Died code => code = 1 /\ exit_code s = Some 1 /\ bound s = ∅
     end.

(** Sample inputs. *)
Definition sample_platform : Server.Platform := Server.exclusive_port false.

Definition sample_answers : Answers :=
  {| method_choice := Api.POST; endpoint_input := "/users"; body_input := "{name" |}.

Definition sample_parse (text : string) : option value :=
  if String.eqb text "{}" then Some (VObj [])
  else if String.eqb text "null" then Some VNull
  else None.

Definition sample_stringify (v : value) : value := v.

End Cli.

(* ===================================================================== *)
(** * Properties of the request client *)
(* ===================================================================== *)

Module ApiSpec.
Import Api.

Section Execute.
Variable env : Env.
Variable adapter : Adapter.

Lemma switch_eq m endpoint bdy :
  makeRequest_switch env adapter m endpoint bdy =
  (let* response := api_request env adapter (template_config m endpoint bdy) in
   resolve (data response))%async.
Proof. destruct m; reflexivity. Qed.

Lemma settle_2xx r w :
  validateStatus (status r) = true -> settle r w = (Fulfilled r, w).
Proof. unfold settle. intros ->. now rewrite orb_true_r. Qed.

Lemma settle_non2xx r w :
  non2xx (status r) -> settle r w = (Rejected (request_failed r), w).
Proof.
  intros [Hstatus Hnot]. unfold settle, validateStatus, truthy.
  replace (status r =? 0) with false by lia.
  replace ((200 <=? status r) && (status r <? 300)) with false; [reflexivity|].
  symmetry. apply andb_false_iff. lia.
Qed.

(** A fulfilled request: the response comes back, nothing is logged. *)
Lemma api_request_2xx cfg r w :
  adapter (outbound env cfg) = Reply r ->
  validateStatus (status r) = true ->
  api_request env adapter cfg w = (Fulfilled r, after_call w (outbound env cfg) []).
Proof.
  intros Had Hok. unfold api_request, then_, await, transmit, effect.
  rewrite Had, settle_2xx by exact Hok.
  unfold response_fulfilled, resolve, after_call. cbn. now rewrite app_nil_r.
Qed.

(** A rejected request: the interceptor logs the error and throws it again. *)
Lemma api_request_non2xx cfg r w :
  adapter (outbound env cfg) = Reply r ->
  non2xx (status r) ->
  api_request env adapter cfg w =
  (Rejected (request_failed r),
   after_call w (outbound env cfg) [api_error_line (request_failed r)]).
Proof.
  intros Had Hbad. unfold api_request, then_, await, transmit, effect.
  rewrite Had, settle_non2xx by exact Hbad. reflexivity.
Qed.

Lemma api_request_no_response cfg msg w :
  adapter (outbound env cfg) = NoReply msg ->
  api_request env adapter cfg w =
  (Rejected (no_response msg),
   after_call w (outbound env cfg) [api_error_line (no_response msg)]).
Proof.
  intros Had. unfold api_request, then_, await, transmit, effect.
  rewrite Had. reflexivity.
Qed.

(** Whatever the transport answers, exactly one request goes out, and it
    is the merged config after the request interceptor. *)
Lemma api_request_wire cfg w :
  wire (snd (api_request env adapter cfg w)) = wire w ++ [outbound env cfg].
Proof.
  unfold api_request, then_, await, transmit, effect.
  destruct (adapter (outbound env cfg)) as [r|msg]; [|reflexivity].
  unfold settle.
  destruct (negb (truthy (VNum (status r))) || validateStatus (status r)); reflexivity.
Qed.

Lemma await_snd {A B} (c : Async World A) (f : A -> B) w :
  snd ((let* x := c in resolve (f x))%async w) = snd (c w).
Proof. unfold await, resolve. destruct (c w) as [[a|e| |code] w']; reflexivity. Qed.

Lemma switch_wire m endpoint bdy w :
  wire (snd (makeRequest_switch env adapter m endpoint bdy w)) =
  wire w ++ [outbound env (template_config m endpoint bdy)].
Proof. rewrite switch_eq, await_snd. apply api_request_wire. Qed.

Lemma switch_non2xx m endpoint bdy r w :
  adapter (outbound env (template_config m endpoint bdy)) = Reply r ->
  non2xx (status r) ->
  makeRequest_switch env adapter m endpoint bdy w =
  (Rejected (request_failed r),
   after_call w (outbound env (template_config m endpoint bdy))
     [api_error_line (request_failed r)]).
Proof.
  intros Had Hbad. rewrite switch_eq. unfold await.
  now rewrite (api_request_non2xx _ r w Had Hbad).
Qed.

Lemma switch_no_response m endpoint bdy msg w :
  adapter (outbound env (template_config m endpoint bdy)) = NoReply msg ->
  makeRequest_switch env adapter m endpoint bdy w =
  (Rejected (no_response msg),
   after_call w (outbound env (template_config m endpoint bdy))
     [api_error_line (no_response msg)]).
Proof.
  intros Had. rewrite switch_eq. unfold await.
  now rewrite (api_request_no_response _ msg w Had).
Qed.

Lemma switch_2xx m endpoint bdy r w :
  adapter (outbound env (template_config m endpoint bdy)) = Reply r ->
  validateStatus (status r) = true ->
  makeRequest_switch env adapter m endpoint bdy w =
  (Fulfilled (data r),
   after_call w (outbound env (template_config m endpoint bdy)) []).
Proof.
  intros Had Hok. rewrite switch_eq. unfold await.
  now rewrite (api_request_2xx _ r w Had Hok).
Qed.
End Execute.

(** The request interceptor and the Authorization header. *)
Lemma outbound_authorized env cfg tok :
  API_KEY env = Some tok -> tok <> "" ->
  headers (outbound env cfg) !! "Authorization" = Some ("Bearer " +:+ tok).
Proof.
  intros Hkey Hne. unfold outbound, request_interceptor. rewrite Hkey. cbn.
  apply String.eqb_neq in Hne. rewrite Hne. cbn. apply lookup_insert_eq.
Qed.

Lemma outbound_anonymous env cfg :
  API_KEY env = None \/ API_KEY env = Some "" ->
  headers (outbound env cfg) !! "Authorization" = headers cfg !! "Authorization".
Proof.
  intros Hkey. unfold outbound, request_interceptor.
  destruct Hkey as [-> | ->]; cbn; apply lookup_union_l; now apply lookup_singleton_ne.
Qed.

(** *** Failures *)

(** C1, as the code has it: a failed call is not turned into a returned
    value. Whether the request got no response at all (network error,
    timeout) or a response with a non-2xx status, the response interceptor
    writes one line for the error on the error channel and throws the same
    error again; no template catches it, so the promise the template
    returned is rejected with that error. *)
Theorem C1_failure_is_logged_then_rethrown
    (env : Env) (adapter : Adapter) (m : Method) (endpoint : string) (bdy : value)
    (w : World) :
  let sent := outbound env (template_config m endpoint bdy) in
  (forall msg, adapter sent = NoReply msg ->
     makeRequest_switch env adapter m endpoint bdy w =
     (Rejected (no_response msg),
      {| console := console w ++ [LogErr [VStr "API Error:"; VUndef; VStr msg]];
         wire := wire w ++ [sent] |}))
  /\
  (forall r, adapter sent = Reply r -> non2xx (status r) ->
     makeRequest_switch env adapter m endpoint bdy w =
     (Rejected (request_failed r),
      {| console := console w ++
           [LogErr [VStr "API Error:"; VNum (status r);
                    js_or (data r) (VStr (message (request_failed r)))]];
         wire := wire w ++ [sent] |})).
Proof.
  intros sent. split.
  - intros msg Had. now rewrite (switch_no_response env adapter m endpoint bdy msg w Had).
  - intros r Had Hbad. now rewrite (switch_non2xx env adapter m endpoint bdy r w Had Hbad).
Qed.

Lemma C1_witness_refused_and_500 :
  fst (makeRequest_switch sample_env (always (NoReply "connect ECONNREFUSED")) DELETE "/users/7"
         VUndef quiet)
  = Rejected (no_response "connect ECONNREFUSED")
  /\
  (non2xx 500 /\
   fst (makeRequest_switch sample_env (always (Reply {| status := 500; data := VStr "" |}))
          POST "/users" (VObj []) quiet)
   = Rejected (request_failed {| status := 500; data := VStr "" |})).
Proof.
  split; [|split].
  - rewrite (proj1 (C1_failure_is_logged_then_rethrown sample_env
               (always (NoReply "connect ECONNREFUSED")) DELETE "/users/7" VUndef quiet)
               "connect ECONNREFUSED" eq_refl).
    reflexivity.
  - unfold non2xx. lia.
  - rewrite (proj2 (C1_failure_is_logged_then_rethrown sample_env
               (always (Reply {| status := 500; data := VStr "" |}))
               POST "/users" (VObj []) quiet)
               {| status := 500; data := VStr "" |} eq_refl).
    + reflexivity.
    + unfold non2xx. cbn. lia.
Defined.

(** C1 as stated fails: a GET answered with 404 ends in a rejected promise
    (the error is thrown to the caller), not in a returned value. *)
Lemma C1_counterexample_get_404_throws :
  fst (makeRequest_switch sample_env (always (Reply not_found)) GET "/missing" VUndef quiet)
  = Rejected {| message := "Request failed with status code 404";
                response := Some not_found |}.
Proof. reflexivity. Qed.

(** C2: a response with a non-2xx status never counts as a success. The
    call ends with the failure that carries the status code and the body of
    the response (and axios's message); the line written on the error
    channel shows that status and the body (the message when the body is
    falsy), and the very same error reaches the caller. *)
Theorem C2_non2xx_is_a_failure_logged_and_delivered
    (env : Env) (adapter : Adapter) (m : Method) (endpoint : string) (bdy : value)
    (w : World) (r : Response) :
  adapter (outbound env (template_config m endpoint bdy)) = Reply r ->
  non2xx (status r) ->
  let result := makeRequest_switch env adapter m endpoint bdy w in
  let failure := request_failed r in
  fst result = Rejected failure
  /\ response failure = Some r
  /\ console (snd result) =
     console w ++ [LogErr [VStr "API Error:"; VNum (status r);
                           js_or (data r) (VStr (message failure))]]
  /\ (forall v, fst result <> Fulfilled v).
Proof.
  intros Had Hbad result failure. subst result failure.
  rewrite (switch_non2xx env adapter m endpoint bdy r w Had Hbad). cbn.
  repeat split. discriminate.
Qed.

Lemma C2_witness_404_not_found :
  non2xx 404 /\
  let result :=
    makeRequest_switch sample_env (always (Reply not_found)) GET "/missing" VUndef quiet in
  fst result = Rejected {| message := "Request failed with status code 404";
                           response := Some {| status := 404;
                                               data := VObj [("error", VStr "not found")] |} |}
  /\ console (snd result) =
     [LogErr [VStr "API Error:"; VNum 404; VObj [("error", VStr "not found")]]].
Proof.
  assert (non2xx 404) as H404 by (unfold non2xx; lia).
  split; [exact H404|].
  pose proof (C2_non2xx_is_a_failure_logged_and_delivered sample_env
                (always (Reply not_found)) GET "/missing" VUndef quiet not_found
                eq_refl H404) as (Hres & _ & Hlog & _).
  split; [exact Hres | exact Hlog].
Defined.

(** *** Successes *)

(** C9, as the code has it: on a 2xx response every template returns
    [response.data], the decoded body alone; the status code is not part of
    what the caller gets. Nothing is written on the console. *)
Theorem C9_success_returns_the_body_only
    (env : Env) (adapter : Adapter) (m : Method) (endpoint : string) (bdy : value)
    (w : World) (r : Response) :
  adapter (outbound env (template_config m endpoint bdy)) = Reply r ->
  validateStatus (status r) = true ->
  let result := makeRequest_switch env adapter m endpoint bdy w in
  fst result = Fulfilled (data r) /\ console (snd result) = console w.
Proof.
  intros Had Hok result. subst result.
  rewrite (switch_2xx env adapter m endpoint bdy r w Had Hok). cbn.
  now rewrite app_nil_r.
Qed.

Lemma C9_witness_201 :
  fst (makeRequest_switch sample_env
         (always (Reply {| status := 201; data := VObj [("id", VNum 7)] |}))
         POST "/users" (VObj [("name", VStr "Ada")]) quiet)
  = Fulfilled (VObj [("id", VNum 7)]).
Proof.
  apply (C9_success_returns_the_body_only sample_env
           (always (Reply {| status := 201; data := VObj [("id", VNum 7)] |}))
           POST "/users" (VObj [("name", VStr "Ada")]) quiet
           {| status := 201; data := VObj [("id", VNum 7)] |} eq_refl eq_refl).
Defined.

(** C9 as stated fails: two responses that differ in their status code
    only, 200 and 201, give the caller the same value, so the value does not
    contain the status code. *)
Lemma C9_counterexample_status_is_dropped :
  let ok := {| status := 200; data := VObj [("id", VNum 7)] |} in
  let made := {| status := 201; data := VObj [("id", VNum 7)] |} in
  status ok <> status made
  /\ fst (makeRequest_switch sample_env (always (Reply ok)) GET "/users/7" VUndef quiet)
     = Fulfilled (VObj [("id", VNum 7)])
  /\ fst (makeRequest_switch sample_env (always (Reply made)) GET "/users/7" VUndef quiet)
     = Fulfilled (VObj [("id", VNum 7)]).
Proof. cbn. repeat split. discriminate. Qed.

(** *** The Authorization header *)

(** C6: for POST, PUT and PATCH the request handed to the transport carries
    [Authorization: Bearer <token>] when the token is a non-empty string,
    and no Authorization header when the token is unset or empty. *)
Theorem C6_bearer_header_on_body_methods
    (env : Env) (adapter : Adapter) (m : Method) (endpoint : string) (bdy : value)
    (w : World) :
  m = POST \/ m = PUT \/ m = PATCH ->
  exists sent,
    wire (snd (makeRequest_switch env adapter m endpoint bdy w)) = wire w ++ [sent]
    /\ (forall tok, API_KEY env = Some tok -> tok <> "" ->
          headers sent !! "Authorization" = Some ("Bearer " +:+ tok))
    /\ (API_KEY env = None \/ API_KEY env = Some "" ->
          headers sent !! "Authorization" = None).
Proof.
  intros _. exists (outbound env (template_config m endpoint bdy)).
  split; [apply switch_wire|]. split.
  - intros tok Hkey Hne. now apply outbound_authorized.
  - intros Hkey. now rewrite outbound_anonymous.
Qed.

Lemma C6_witness_put_and_patch :
  (exists sent,
     wire (snd (makeRequest_switch sample_env (always (Reply not_found)) PUT "/users/7"
                  (VObj [("name", VStr "Ada")]) quiet)) = [sent]
     /\ headers sent !! "Authorization" = Some "Bearer s3cret")
  /\
  (exists sent,
     wire (snd (makeRequest_switch anonymous_env (always (Reply not_found)) PATCH "/users/7"
                  (VObj [("name", VStr "Ada")]) quiet)) = [sent]
     /\ headers sent !! "Authorization" = None).
Proof.
  split.
  - destruct (C6_bearer_header_on_body_methods sample_env (always (Reply not_found)) PUT
                "/users/7" (VObj [("name", VStr "Ada")]) quiet)
      as (sent & Hwire & Hset & _); [right; left; reflexivity|].
    exists sent. split; [exact Hwire|].
    apply (Hset "s3cret" eq_refl). discriminate.
  - destruct (C6_bearer_header_on_body_methods anonymous_env (always (Reply not_found)) PATCH
                "/users/7" (VObj [("name", VStr "Ada")]) quiet)
      as (sent & Hwire & _ & Hnone); [right; right; reflexivity|].
    exists sent. split; [exact Hwire|].
    apply Hnone. left. reflexivity.
Defined.

(** C10: with a token configured, every request that goes through the
    configured instance carries [Authorization: Bearer <token>], whatever
    its method, GET and DELETE included, and so does a request made through
    [request] with a config of the caller's own: the header is set by the
    one request interceptor of the instance. *)
Theorem C10_bearer_header_on_every_method
    (env : Env) (adapter : Adapter) (tok : string) (w : World) :
  API_KEY env = Some tok -> tok <> "" ->
  (forall m endpoint bdy, exists sent,
     wire (snd (makeRequest_switch env adapter m endpoint bdy w)) = wire w ++ [sent]
     /\ headers sent !! "Authorization" = Some ("Bearer " +:+ tok))
  /\
  (forall config, exists sent,
     wire (snd (request env adapter config w)) = wire w ++ [sent]
     /\ headers sent !! "Authorization" = Some ("Bearer " +:+ tok)).
Proof.
  intros Hkey Hne. split.
  - intros m endpoint bdy. exists (outbound env (template_config m endpoint bdy)).
    split; [apply switch_wire | now apply outbound_authorized].
  - intros config. exists (outbound env config). split.
    + unfold request. rewrite await_snd. apply api_request_wire.
    + now apply outbound_authorized.
Qed.

Lemma C10_witness_get_and_delete :
  (exists sent,
     wire (snd (makeRequest_switch sample_env (always (Reply not_found)) GET "/users" VUndef quiet))
     = wire quiet ++ [sent]
     /\ headers sent !! "Authorization" = Some "Bearer s3cret")
  /\
  (exists sent,
     wire (snd (makeRequest_switch sample_env (always (Reply not_found)) DELETE "/users/7"
                  VUndef quiet))
     = wire quiet ++ [sent]
     /\ headers sent !! "Authorization" = Some "Bearer s3cret").
Proof.
  assert ("s3cret" <> "") as Hne by discriminate.
  pose proof (C10_bearer_header_on_every_method sample_env (always (Reply not_found))
                "s3cret" quiet eq_refl Hne) as [Hall _].
  split; [apply (Hall GET "/users" VUndef) | apply (Hall DELETE "/users/7" VUndef)].
Defined.

End ApiSpec.

(* ===================================================================== *)
(** * Properties of the listener controller *)
(* ===================================================================== *)

Module ServerSpec.
Import Server.

Lemma start_when_running env pf p h :
  server p = Some h ->
  handleStartServer env pf p = (Fulfilled tt, logged p "Server is already running").
Proof. intros Hs. unfold handleStartServer, await, get_server. now rewrite Hs. Qed.

Lemma stop_when_stopped p :
  server p = None ->
  handleStopServer p = (Fulfilled tt, logged p "Server is not running").
Proof. intros Hs. unfold handleStopServer, await, get_server. now rewrite Hs. Qed.

Lemma start_when_granted env pf p :
  server p = None -> can_bind pf (listening p) = true ->
  handleStartServer env pf p =
  (Fulfilled tt,
   {| server := Some (created p);
      console := console p ++ [LogOut [VStr ("Server listening on port " +:+ port_text env)]];
      created := S (created p);
      listening := {[created p]} ∪ listening p;
      socket_ops := socket_ops p ++ [Listen (created p)] |}).
Proof.
  intros Hs Hb. unfold handleStartServer, await, get_server. rewrite Hs.
  unfold startServer, app_listen. rewrite Hb. reflexivity.
Qed.

Lemma start_when_refused env pf p :
  server p = None -> can_bind pf (listening p) = false ->
  port_error pf (PORT env) = None ->
  calls_back_on_error pf = false ->
  handleStartServer env pf p =
  (Died 1,
   {| server := None; console := console p; created := S (created p);
      listening := listening p;
      socket_ops := socket_ops p ++ [Listen (created p)] |}).
Proof.
  intros Hs Hb Hport Hcb. unfold handleStartServer, await, get_server. rewrite Hs.
  unfold startServer, app_listen. rewrite Hb, Hport, Hcb. cbn. now rewrite Hs.
Qed.

Lemma start_when_thrown env pf p e :
  server p = None -> can_bind pf (listening p) = false ->
  port_error pf (PORT env) = Some e ->
  handleStartServer env pf p =
  (Rejected e,
   {| server := None; console := console p; created := S (created p);
      listening := listening p;
      socket_ops := socket_ops p ++ [Listen (created p)] |}).
Proof.
  intros Hs Hb Hport. unfold handleStartServer, await, get_server. rewrite Hs.
  unfold startServer, app_listen. rewrite Hb, Hport. cbn. now rewrite Hs.
Qed.

Lemma start_when_called_back env pf p :
  server p = None -> can_bind pf (listening p) = false ->
  port_error pf (PORT env) = None ->
  calls_back_on_error pf = true ->
  handleStartServer env pf p =
  (Fulfilled tt,
   {| server := Some (created p);
      console := console p ++ [LogOut [VStr ("Server listening on port " +:+ port_text env)]];
      created := S (created p);
      listening := listening p;
      socket_ops := socket_ops p ++ [Listen (created p)] |}).
Proof.
  intros Hs Hb Hport Hcb. unfold handleStartServer, await, get_server. rewrite Hs.
  unfold startServer, app_listen. rewrite Hb, Hport, Hcb. reflexivity.
Qed.

Lemma stop_when_running p h :
  server p = Some h ->
  handleStopServer p =
  (Fulfilled tt,
   {| server := None; console := console p ++ [LogOut [VStr "Server stopped"]];
      created := created p; listening := listening p ∖ {[h]};
      socket_ops := socket_ops p ++ [Close h] |}).
Proof. intros Hs. unfold handleStopServer, await, get_server. now rewrite Hs. Qed.

Lemma cleanup_when_running p h :
  server p = Some h ->
  cleanup p =
  (Fulfilled tt,
   {| server := Some h; console := console p ++ [LogOut [VStr "Server stopped"]];
      created := created p; listening := listening p ∖ {[h]};
      socket_ops := socket_ops p ++ [Close h] |}).
Proof. intros Hs. unfold cleanup, await, get_server. rewrite Hs. cbn. now rewrite Hs. Qed.

Lemma cleanup_when_stopped p :
  server p = None -> cleanup p = (Fulfilled tt, p).
Proof. intros Hs. unfold cleanup, await, get_server. now rewrite Hs. Qed.

(** The one error a start can end with is the one [listen] throws. *)
Lemma start_rejection env pf p e :
  fst (handleStartServer env pf p) = Rejected e ->
  server p = None /\ can_bind pf (listening p) = false
  /\ port_error pf (PORT env) = Some e.
Proof.
  destruct (server p) as [h|] eqn:Hs.
  { rewrite (start_when_running env pf p h Hs). discriminate. }
  destruct (can_bind pf (listening p)) eqn:Hb.
  { rewrite (start_when_granted env pf p Hs Hb). discriminate. }
  destruct (port_error pf (PORT env)) as [e'|] eqn:Hport.
  { rewrite (start_when_thrown env pf p e' Hs Hb Hport). now intros [= ->]. }
  destruct (calls_back_on_error pf) eqn:Hcb.
  - rewrite (start_when_called_back env pf p Hs Hb Hport Hcb). discriminate.
  - rewrite (start_when_refused env pf p Hs Hb Hport Hcb). discriminate.
Qed.

(** *** The invariant *)

Lemma owns_listeners_initial : owns_listeners initial.
Proof. intros h Hh. cbn in Hh. set_solver. Qed.

Lemma stopped_listens_nowhere p :
  owns_listeners p -> server p = None -> listening p = ∅.
Proof.
  intros Hinv Hs. apply set_eq. intros h. split; [|set_solver].
  intros Hh. apply Hinv in Hh. congruence.
Qed.

Lemma start_keeps_ownership env pf p :
  owns_listeners p -> owns_listeners (snd (handleStartServer env pf p)).
Proof.
  intros Hinv. destruct (server p) as [h|] eqn:Hs.
  - rewrite (start_when_running env pf p h Hs). exact Hinv.
  - pose proof (stopped_listens_nowhere p Hinv Hs) as Hempty.
    destruct (can_bind pf (listening p)) eqn:Hb.
    + rewrite (start_when_granted env pf p Hs Hb). rewrite Hempty.
      intros h Hh. cbn in Hh. set_unfold in Hh. destruct Hh as [->|[]]. reflexivity.
    + assert (forall q, listening q = listening p -> owns_listeners q) as Hnone.
      { intros q Hq h Hh. rewrite Hq, Hempty in Hh. now apply not_elem_of_empty in Hh. }
      destruct (port_error pf (PORT env)) as [e|] eqn:Hport.
      * rewrite (start_when_thrown env pf p e Hs Hb Hport). now apply Hnone.
      * destruct (calls_back_on_error pf) eqn:Hcb.
        -- rewrite (start_when_called_back env pf p Hs Hb Hport Hcb). now apply Hnone.
        -- rewrite (start_when_refused env pf p Hs Hb Hport Hcb). now apply Hnone.
Qed.

Lemma stop_keeps_ownership p :
  owns_listeners p -> owns_listeners (snd (handleStopServer p)).
Proof.
  intros Hinv. destruct (server p) as [h|] eqn:Hs.
  - rewrite (stop_when_running p h Hs). intros h' Hh'. cbn in *.
    apply elem_of_difference in Hh' as [Hin Hne].
    apply Hinv in Hin. rewrite Hs in Hin. set_solver.
  - rewrite (stop_when_stopped p Hs). exact Hinv.
Qed.

Lemma cleanup_keeps_ownership p :
  owns_listeners p -> owns_listeners (snd (cleanup p)).
Proof.
  intros Hinv. destruct (server p) as [h|] eqn:Hs.
  - rewrite (cleanup_when_running p h Hs). intros h' Hh'. cbn in *.
    apply elem_of_difference in Hh' as [Hin _].
    apply Hinv in Hin. congruence.
  - rewrite (cleanup_when_stopped p Hs). exact Hinv.
Qed.

Lemma perform_keeps_ownership env pf c p :
  owns_listeners p -> owns_listeners (snd (perform env pf c p)).
Proof.
  destruct c; cbn.
  - apply start_keeps_ownership.
  - apply stop_keeps_ownership.
  - apply cleanup_keeps_ownership.
Qed.

Lemma run_keeps_ownership env pf cs :
  forall p, owns_listeners p -> owns_listeners (snd (run env pf cs p)).
Proof.
  induction cs as [|c cs IH]; intros p Hinv; [exact Hinv|].
  cbn. unfold await.
  pose proof (perform_keeps_ownership env pf c p Hinv) as Hstep.
  destruct (perform env pf c p) as [[[]|e| |code] p']; cbn in *; auto.
Qed.

Lemma owner_bounds_listeners p :
  owns_listeners p -> (size (listening p) <= 1)%nat.
Proof.
  intros Hinv. destruct (server p) as [h|] eqn:Hs.
  - rewrite <- (size_singleton (C:=gset nat) h). apply subseteq_size.
    intros h' Hh'. apply Hinv in Hh'. rewrite Hs in Hh'. set_solver.
  - rewrite (stopped_listens_nowhere p Hinv Hs), size_empty. lia.
Qed.

(** *** Start *)

(** C5: whatever sequence of start, stop and cleanup is run from the
    initial state, and whatever the platform lets bind, at most one server
    object of the process listens. A start in the Running state is a no-op
    that logs "Server is already running" and returns normally; two starts
    in a row on a free port bind exactly one listener, by one [listen]
    call. *)
Theorem C5_at_most_one_listener (env : Env) (pf : Platform) :
  (forall cs, (size (listening (snd (run env pf cs initial))) <= 1)%nat)
  /\
  (forall p h, server p = Some h ->
     handleStartServer env pf p = (Fulfilled tt, logged p "Server is already running"))
  /\
  (forall p, server p = None -> listening p = ∅ -> can_bind pf ∅ = true ->
     run env pf [Start; Start] p =
     (Fulfilled tt,
      {| server := Some (created p);
         console := console p ++
           [LogOut [VStr ("Server listening on port " +:+ port_text env)];
            LogOut [VStr "Server is already running"]];
         created := S (created p);
         listening := {[created p]};
         socket_ops := socket_ops p ++ [Listen (created p)] |})).
Proof.
  split; [|split].
  - intros cs. apply owner_bounds_listeners, run_keeps_ownership, owns_listeners_initial.
  - intros p h Hs. exact (start_when_running env pf p h Hs).
  - intros p Hs Hempty Hfree. cbn. unfold await at 1.
    rewrite (start_when_granted env pf p Hs) by now rewrite Hempty.
    unfold await.
    erewrite start_when_running by reflexivity.
    unfold logged, resolve. cbn. rewrite Hempty, (right_id_L ∅ (∪)).
    now rewrite <- app_assoc.
Qed.

Lemma C5_witness_two_starts :
  fst (run sample_env (exclusive_port false) [Start; Start] initial) = Fulfilled tt
  /\ listening (snd (run sample_env (exclusive_port false) [Start; Start] initial)) = {[0%nat]}
  /\ socket_ops (snd (run sample_env (exclusive_port false) [Start; Start] initial))
     = [Listen 0].
Proof.
  pose proof (proj2 (proj2 (C5_at_most_one_listener sample_env (exclusive_port false)))
                initial eq_refl eq_refl eq_refl) as Hrun.
  rewrite Hrun. repeat split.
Defined.

(** C4, as the code has it: when the port is refused as the listener is
    bound (the port is in use), start reports no error. The promise of
    [startServer] is resolved in the listen callback only and no listener
    is registered for the 'error' event, so start is not rejected; where
    the failed [listen] leaves its callback uncalled, start never
    completes: the unhandled 'error' event ends the process with exit code
    1, the state being Stopped and no listener bound. Only when [listen]
    itself throws, for a port it does not accept, does start end with that
    error, the state staying Stopped. *)
Theorem C4_failed_bind_is_not_reported (env : Env) (pf : Platform) (p : Proc) :
  server p = None ->
  can_bind pf (listening p) = false ->
  let stopped :=
    {| server := None; console := console p; created := S (created p);
       listening := listening p;
       socket_ops := socket_ops p ++ [Listen (created p)] |} in
  (port_error pf (PORT env) = None ->
   (forall e, fst (handleStartServer env pf p) <> Rejected e)
   /\ (calls_back_on_error pf = false ->
       handleStartServer env pf p = (Died 1, stopped)))
  /\
  (forall e, port_error pf (PORT env) = Some e ->
   handleStartServer env pf p = (Rejected e, stopped)).
Proof.
  intros Hs Hb stopped. split.
  - intros Hport. split.
    + intros e He. apply start_rejection in He as (_ & _ & He). congruence.
    + intros Hcb. now apply start_when_refused.
  - intros e Hport. now apply start_when_thrown.
Qed.

Lemma C4_witness_port_in_use :
  handleStartServer sample_env (port_in_use false) initial =
  (Died 1,
   {| server := None; console := []; created := 1; listening := ∅;
      socket_ops := [Listen 0] |})
  /\
  handleStartServer port_99999 checks_port_range initial =
  (Rejected bad_port,
   {| server := None; console := []; created := 1; listening := ∅;
      socket_ops := [Listen 0] |}).
Proof.
  split.
  - apply (proj2 (proj1 (C4_failed_bind_is_not_reported sample_env (port_in_use false)
                           initial eq_refl eq_refl) eq_refl) eq_refl).
  - apply (proj2 (C4_failed_bind_is_not_reported port_99999 checks_port_range
                    initial eq_refl eq_refl) bad_port eq_refl).
Defined.

(** C4 as stated fails: with the port held by another process, start on
    the initial state returns no error. Where the callback stays uncalled
    the promise never settles and the unhandled 'error' event ends the
    process; where the callback is invoked with the error, start logs
    "Server listening" and the state becomes Running with a server that is
    not bound. *)
Lemma C4_counterexample_port_in_use :
  handleStartServer sample_env (port_in_use false) initial =
  (Died 1,
   {| server := None; console := []; created := 1; listening := ∅;
      socket_ops := [Listen 0] |})
  /\
  handleStartServer sample_env (port_in_use true) initial =
  (Fulfilled tt,
   {| server := Some 0%nat;
      console := [LogOut [VStr "Server listening on port 3000"]];
      created := 1; listening := ∅; socket_ops := [Listen 0] |}).
Proof. split; reflexivity. Qed.

(** *** Stop and restart *)

(** C8: stop in the Stopped state returns at once, its only effect being
    the line "Server is not running": no call is made on any server object,
    nothing changes in what listens, and the state is still Stopped. *)
Theorem C8_stop_when_stopped_is_a_no_op (p : Proc) :
  server p = None ->
  handleStopServer p = (Fulfilled tt, logged p "Server is not running")
  /\ socket_ops (snd (handleStopServer p)) = socket_ops p
  /\ listening (snd (handleStopServer p)) = listening p
  /\ server (snd (handleStopServer p)) = None.
Proof.
  intros Hs. rewrite (stop_when_stopped p Hs). cbn. auto.
Qed.

Lemma C8_witness_initial :
  handleStopServer initial = (Fulfilled tt, logged initial "Server is not running")
  /\ socket_ops (snd (handleStopServer initial)) = []
  /\ listening (snd (handleStopServer initial)) = ∅
  /\ server (snd (handleStopServer initial)) = None.
Proof. apply (C8_stop_when_stopped_is_a_no_op initial eq_refl). Defined.

(** C7: on a port that one listener at a time can hold, start, stop, start
    from a Stopped state succeeds at both starts. The first server object
    listens after the first start and no longer after the stop; the second
    start binds a second, different object, the only one listening at the
    end. Had the first not been released the second bind would have bound
    nothing. *)
Theorem C7_start_stop_start (env : Env) (cb : bool) (p : Proc) :
  server p = None -> listening p = ∅ ->
  let pf := exclusive_port cb in
  let first := created p in
  let second := S (created p) in
  exists p1 p2 p3,
    handleStartServer env pf p = (Fulfilled tt, p1)
    /\ server p1 = Some first /\ listening p1 = {[first]}
    /\ handleStopServer p1 = (Fulfilled tt, p2)
    /\ server p2 = None /\ listening p2 = ∅
    /\ handleStartServer env pf p2 = (Fulfilled tt, p3)
    /\ server p3 = Some second /\ listening p3 = {[second]}
    /\ first <> second
    /\ run env pf [Start; Stop; Start] p = (Fulfilled tt, p3)
    /\ socket_ops p3 = socket_ops p ++ [Listen first; Close first; Listen second]
    /\ (forall q, listening q <> ∅ ->
          listening (snd (startServer env pf q)) = listening q).
Proof.
  intros Hs Hempty pf first second.
  assert (forall held : gset nat, held = ∅ -> can_bind pf held = true) as Hfree
    by (intros held ->; reflexivity).
  pose proof (start_when_granted env pf p Hs (Hfree _ Hempty)) as H1.
  rewrite Hempty, (right_id_L ∅ (∪)) in H1.
  set (p1 := snd (handleStartServer env pf p)).
  pose proof (stop_when_running p1 first) as H2.
  set (p2 := snd (handleStopServer p1)).
  assert (listening p2 = ∅) as Hreleased.
  { subst p2. rewrite H2 by (subst p1; now rewrite H1). cbn.
    subst p1. rewrite H1. cbn. apply difference_diag_L. }
  assert (server p2 = None) as Hs2.
  { subst p2. rewrite H2 by (subst p1; now rewrite H1). reflexivity. }
  pose proof (start_when_granted env pf p2 Hs2 (Hfree _ Hreleased)) as H3.
  rewrite Hreleased, (right_id_L ∅ (∪)) in H3.
  assert (created p2 = second) as Hc2.
  { subst p2. rewrite H2 by (subst p1; now rewrite H1). cbn.
    subst p1. now rewrite H1. }
  rewrite Hc2 in H3.
  exists p1, p2, (snd (handleStartServer env pf p2)).
  assert (handleStartServer env pf p = (Fulfilled tt, p1)) as E1
    by (subst p1; now rewrite H1).
  assert (handleStopServer p1 = (Fulfilled tt, p2)) as E2.
  { subst p2. rewrite H2 by (subst p1; now rewrite H1). reflexivity. }
  assert (handleStartServer env pf p2 = (Fulfilled tt, snd (handleStartServer env pf p2)))
    as E3 by now rewrite H3.
  repeat split; try assumption.
  - subst p1. now rewrite H1.
  - subst p1. now rewrite H1.
  - now rewrite H3.
  - now rewrite H3.
  - subst first second. lia.
  - cbn [run perform]. unfold await. rewrite E1, E2, H3. reflexivity.
  - rewrite H3. cbn. subst p2. rewrite H2 by (subst p1; now rewrite H1). cbn.
    subst p1. rewrite H1. cbn. now rewrite <- !app_assoc.
  - intros q Hq. unfold startServer, app_listen. cbn.
    rewrite bool_decide_eq_false_2 by exact Hq.
    destruct cb; reflexivity.
Qed.

Lemma C7_witness_from_initial :
  fst (run sample_env (exclusive_port false) [Start; Stop; Start] initial) = Fulfilled tt
  /\ socket_ops (snd (run sample_env (exclusive_port false) [Start; Stop; Start] initial))
     = [Listen 0; Close 0; Listen 1].
Proof.
  destruct (C7_start_stop_start sample_env false initial eq_refl eq_refl)
    as (p1 & p2 & p3 & _ & _ & _ & _ & _ & _ & _ & _ & _ & _ & Hrun & Hops & _).
  rewrite Hrun. split; [reflexivity | exact Hops].
Defined.

(** *** Cleanup *)

(** C3 on the code: cleanup in the Running state closes the listener but
    leaves [server] set, so the state does not go back to Stopped:
    [isServerRunning] still answers true, a second cleanup calls [close] on
    the closed server again, and a start after it answers "already running"
    with nothing listening. Stop, in the same situation, resets [server]. *)
Theorem C3_cleanup_leaves_server_set :
  let pf := exclusive_port false in
  let after_cleanup := snd (run sample_env pf [Start; Cleanup] initial) in
  fst (run sample_env pf [Start; Cleanup] initial) = Fulfilled tt
  /\ listening after_cleanup = ∅
  /\ server after_cleanup = Some 0%nat
  /\ isServerRunning after_cleanup = true
  /\ socket_ops (snd (cleanup after_cleanup)) = [Listen 0; Close 0; Close 0]
  /\ handleStartServer sample_env pf after_cleanup
     = (Fulfilled tt, logged after_cleanup "Server is already running")
  /\ server (snd (run sample_env pf [Start; Stop] initial)) = None.
Proof. cbn. repeat split. Qed.

End ServerSpec.

(* ===================================================================== *)
(** * Further properties of the request client *)
(* ===================================================================== *)

Module ApiExtra.
Import Api ApiSpec.

(** The request interceptor touches the Authorization header only. *)
Lemma interceptor_keeps_fields env cfg :
  url (request_interceptor env cfg) = url cfg
  /\ method (request_interceptor env cfg) = method cfg
  /\ baseURL (request_interceptor env cfg) = baseURL cfg
  /\ timeout (request_interceptor env cfg) = timeout cfg
  /\ params (request_interceptor env cfg) = params cfg
  /\ body (request_interceptor env cfg) = body cfg.
Proof.
  unfold request_interceptor. destruct (API_KEY env) as [key|]; [|now repeat split].
  destruct (truthy (VStr key)); now repeat split.
Qed.

Lemma interceptor_keeps_other_headers env cfg k :
  k <> "Authorization" ->
  headers (request_interceptor env cfg) !! k = headers cfg !! k.
Proof.
  intros Hk. unfold request_interceptor. destruct (API_KEY env) as [key|]; [|reflexivity].
  destruct (truthy (VStr key)); [|reflexivity].
  cbn. now apply lookup_insert_ne.
Qed.

(** X1: what every template request carries. Whatever the verb, the
    request that reaches the transport has the endpoint as its url, the
    verb as its method, the base URL of the environment, the timeout of
    30000 ms and [Content-Type: application/json]; GET and DELETE carry no
    body, whatever was passed. *)
Theorem templates_send_instance_defaults
    (env : Env) (adapter : Adapter) (m : Method) (endpoint : string) (bdy : value)
    (w : World) :
  exists sent,
    wire (snd (makeRequest_switch env adapter m endpoint bdy w)) = wire w ++ [sent]
    /\ url sent = Some endpoint
    /\ method sent = Some m
    /\ baseURL sent = API_BASE_URL env
    /\ timeout sent = Some 30000
    /\ headers sent !! "Content-Type" = Some "application/json"
    /\ (m = GET \/ m = DELETE -> body sent = VUndef).
Proof.
  exists (outbound env (template_config m endpoint bdy)).
  split; [apply switch_wire|].
  unfold outbound.
  destruct (interceptor_keeps_fields env
              (mergeConfig (api_defaults env) (template_config m endpoint bdy)))
    as (-> & -> & -> & -> & _ & ->).
  rewrite interceptor_keeps_other_headers by discriminate.
  cbn. repeat split. now intros [-> | ->].
Qed.

Lemma templates_send_instance_defaults_witness :
  exists sent,
    wire (snd (makeRequest_switch sample_env (always (Reply not_found)) DELETE "/users/7"
                 (VObj [("force", VBool true)]) quiet)) = [sent]
    /\ timeout sent = Some 30000
    /\ headers sent !! "Content-Type" = Some "application/json"
    /\ body sent = VUndef.
Proof.
  destruct (templates_send_instance_defaults sample_env (always (Reply not_found)) DELETE
              "/users/7" (VObj [("force", VBool true)]) quiet)
    as (sent & Hwire & _ & _ & _ & Htime & Htype & Hbody).
  exists sent. split; [exact Hwire|]. split; [exact Htime|]. split; [exact Htype|].
  apply Hbody. right. reflexivity.
Defined.

(** X2: a config of the caller's own, through [request], whose headers
    spell Authorization and Content-Type as this code does. The caller's
    timeout replaces the 30000 ms; every header of the caller other than
    Authorization is sent as given, and the content type is
    application/json when the caller gives none. The caller's Authorization
    header is sent only when no API key is configured: with a key, the
    interceptor overwrites it. *)
Theorem request_config_overrides
    (env : Env) (adapter : Adapter) (config : RequestConfig) (w : World) :
  plainly_named (headers config) ->
  exists sent,
    wire (snd (request env adapter config w)) = wire w ++ [sent]
    /\ timeout sent = match timeout config with Some t => Some t | None => Some 30000 end
    /\ (forall k v, k <> "Authorization" -> headers config !! k = Some v ->
          headers sent !! k = Some v)
    /\ (headers config !! "Content-Type" = None ->
          headers sent !! "Content-Type" = Some "application/json")
    /\ (forall tok, API_KEY env = Some tok -> tok <> "" ->
          headers sent !! "Authorization" = Some ("Bearer " +:+ tok))
    /\ (API_KEY env = None \/ API_KEY env = Some "" ->
          headers sent !! "Authorization" = headers config !! "Authorization").
Proof.
  intros _. exists (outbound env config). split.
  { unfold request. rewrite await_snd. apply api_request_wire. }
  split; [|split; [|split; [|split]]].
  - unfold outbound.
    destruct (interceptor_keeps_fields env (mergeConfig (api_defaults env) config))
      as (_ & _ & _ & -> & _ & _).
    cbn. now destruct (timeout config).
  - intros k v Hk Hv. unfold outbound.
    rewrite interceptor_keeps_other_headers by exact Hk.
    cbn. now apply lookup_union_Some_l.
  - intros Hnone. unfold outbound.
    rewrite interceptor_keeps_other_headers by discriminate.
    cbn. rewrite lookup_union_r by exact Hnone. apply lookup_singleton_eq.
  - intros tok Hkey Hne. now apply outbound_authorized.
  - intros Hkey. now apply outbound_anonymous.
Qed.

(** X3: the line for an error response with an empty body. When the body
    of a non-2xx response is falsy (an empty string, null, false, 0 or
    missing), the line on the error channel shows the status and axios's
    message in its place. *)
Theorem empty_error_body_logs_the_message
    (env : Env) (adapter : Adapter) (m : Method) (endpoint : string) (bdy : value)
    (w : World) (r : Response) :
  adapter (outbound env (template_config m endpoint bdy)) = Reply r ->
  non2xx (status r) ->
  truthy (data r) = false ->
  console (snd (makeRequest_switch env adapter m endpoint bdy w)) =
  console w ++ [LogErr [VStr "API Error:"; VNum (status r);
                        VStr ("Request failed with status code " +:+ pretty (status r))]].
Proof.
  intros Had Hbad Hfalsy.
  rewrite (switch_non2xx env adapter m endpoint bdy r w Had Hbad).
  unfold after_call, api_error_line, response_status, response_data, request_failed.
  cbn [snd console response message]. unfold js_or. now rewrite Hfalsy.
Qed.

Lemma empty_error_body_witness :
  console (snd (makeRequest_switch sample_env
                  (always (Reply {| status := 503; data := VStr "" |}))
                  GET "/health" VUndef quiet)) =
  [LogErr [VStr "API Error:"; VNum 503; VStr "Request failed with status code 503"]].
Proof.
  assert (non2xx 503) as Hbad by (unfold non2xx; lia).
  apply (empty_error_body_logs_the_message sample_env
           (always (Reply {| status := 503; data := VStr "" |}))
           GET "/health" VUndef quiet {| status := 503; data := VStr "" |}
           eq_refl Hbad eq_refl).
Defined.

(** X4: [rawRequest] goes round the interceptors. It never writes to the
    console, on a failure as little as on a success: a request without a
    response and a non-2xx response reject the promise with the error, a
    2xx response gives its body. *)
Theorem rawRequest_is_silent
    (adapter : Adapter) (target : string) (options : RequestConfig) (w : World) :
  let result := rawRequest adapter target options w in
  console (snd result) = console w
  /\ exists sent,
       wire (snd result) = wire w ++ [sent]
       /\ (forall msg, adapter sent = NoReply msg ->
             fst result = Rejected (no_response msg))
       /\ (forall r, adapter sent = Reply r -> non2xx (status r) ->
             fst result = Rejected (request_failed r))
       /\ (forall r, adapter sent = Reply r -> validateStatus (status r) = true ->
             fst result = Fulfilled (data r)).
Proof.
  cbv zeta. unfold rawRequest, axios_call, await, transmit, effect.
  match goal with |- context [adapter ?c] => set (sent := c) end.
  split.
  { destruct (adapter sent) as [r|msg]; [|reflexivity].
    unfold settle.
    destruct (negb (truthy (VNum (status r))) || validateStatus (status r)); reflexivity. }
  exists sent. split.
  { destruct (adapter sent) as [r|msg]; [|reflexivity].
    unfold settle.
    destruct (negb (truthy (VNum (status r))) || validateStatus (status r)); reflexivity. }
  split; [|split].
  - intros msg Had. now rewrite Had.
  - intros r Had Hbad. now rewrite Had, (settle_non2xx r _ Hbad).
  - intros r Had Hok. now rewrite Had, (settle_2xx r _ Hok).
Qed.

(** X5: what [rawRequest] passes on, for options whose headers spell
    Authorization and Content-Type as this code does. Every header of the
    options is sent as given, and the Authorization header is the caller's
    or none: no bearer token is added, whatever the environment. There is
    no base URL but the caller's, the timeout is 30000 ms unless the
    options give one, and a url among the options replaces the url
    argument. *)
Theorem rawRequest_sends_the_options
    (adapter : Adapter) (target : string) (options : RequestConfig) (w : World) :
  plainly_named (headers options) ->
  exists sent,
    wire (snd (rawRequest adapter target options w)) = wire w ++ [sent]
    /\ (forall k v, headers options !! k = Some v -> headers sent !! k = Some v)
    /\ headers sent !! "Authorization" = headers options !! "Authorization"
    /\ baseURL sent = baseURL options
    /\ timeout sent = match timeout options with Some t => Some t | None => Some 30000 end
    /\ url sent = match url options with Some other => Some other | None => Some target end.
Proof.
  intros _. unfold rawRequest, axios_call, await, transmit, effect. cbn.
  match goal with |- context [adapter ?c] => set (sent := c) end.
  exists sent. split.
  - destruct (adapter sent) as [r|msg]; [|reflexivity].
    unfold settle.
    destruct (negb (truthy (VNum (status r))) || validateStatus (status r)); reflexivity.
  - subst sent. cbn. repeat split.
    + auto.
    + now destruct (timeout options).
    + now destruct (url options).
Qed.

Lemma custom_config_plainly_named : plainly_named (headers custom_config).
Proof.
  intros k [v Hk]. cbn in Hk.
  apply lookup_insert_Some in Hk as [[<- _] | [_ Hk]].
  - split; [reflexivity | discriminate].
  - apply lookup_singleton_Some in Hk as [<- _]. split; discriminate.
Qed.

Lemma rawRequest_sends_the_options_witness :
  exists sent,
    wire (snd (rawRequest (always (Reply not_found)) "https://other.test/ping"
                 custom_config quiet)) = [sent]
    /\ headers sent !! "Authorization" = Some "Basic dXNlcg=="
    /\ timeout sent = Some 5000
    /\ url sent = Some "/reports".
Proof.
  destruct (rawRequest_sends_the_options (always (Reply not_found))
              "https://other.test/ping" custom_config quiet custom_config_plainly_named)
    as (sent & Hwire & _ & Hauth & _ & Htime & Hurl).
  exists sent. split; [exact Hwire|].
  split; [now rewrite Hauth|]. split; [exact Htime | exact Hurl].
Defined.

Lemma request_config_overrides_witness :
  (exists sent,
     wire (snd (request anonymous_env (always (Reply not_found)) custom_config quiet)) = [sent]
     /\ timeout sent = Some 5000
     /\ headers sent !! "X-Trace" = Some "on"
     /\ headers sent !! "Authorization" = Some "Basic dXNlcg==")
  /\
  (exists sent,
     wire (snd (request sample_env (always (Reply not_found)) custom_config quiet)) = [sent]
     /\ headers sent !! "Authorization" = Some "Bearer s3cret").
Proof.
  split.
  - destruct (request_config_overrides anonymous_env (always (Reply not_found))
                custom_config quiet custom_config_plainly_named)
      as (sent & Hwire & Htime & Hkeep & _ & _ & Hauth).
    exists sent. split; [exact Hwire|]. split; [exact Htime|]. split.
    + apply Hkeep; [discriminate | reflexivity].
    + rewrite Hauth by (left; reflexivity). reflexivity.
  - destruct (request_config_overrides sample_env (always (Reply not_found))
                custom_config quiet custom_config_plainly_named)
      as (sent & Hwire & _ & _ & _ & Hbearer & _).
    exists sent. split; [exact Hwire|].
    apply (Hbearer "s3cret" eq_refl). discriminate.
Defined.

Lemma rawRequest_is_silent_witness :
  console (snd (rawRequest (always (NoReply "getaddrinfo ENOTFOUND")) "https://other.test/ping"
                  no_options quiet)) = []
  /\ fst (rawRequest (always (NoReply "getaddrinfo ENOTFOUND")) "https://other.test/ping"
            no_options quiet) = Rejected (no_response "getaddrinfo ENOTFOUND").
Proof.
  destruct (rawRequest_is_silent (always (NoReply "getaddrinfo ENOTFOUND"))
              "https://other.test/ping" no_options quiet)
    as (Hquiet & sent & _ & Hfail & _ & _).
  split; [exact Hquiet|].
  apply (Hfail "getaddrinfo ENOTFOUND" eq_refl).
Defined.

End ApiExtra.

(* ===================================================================== *)
(** * Further properties of the listener controller *)
(* ===================================================================== *)

Module ServerExtra.
Import Server ServerSpec.

(** What a start in the Stopped state does to the socket calls, whatever
    the platform answers. *)
Lemma start_from_stopped env pf p :
  server p = None ->
  socket_ops (snd (handleStartServer env pf p)) = socket_ops p ++ [Listen (created p)]
  /\ created (snd (handleStartServer env pf p)) = S (created p)
  /\ (server (snd (handleStartServer env pf p)) = None
      \/ server (snd (handleStartServer env pf p)) = Some (created p)).
Proof.
  intros Hs. unfold handleStartServer, await, get_server. rewrite Hs.
  unfold startServer, app_listen.
  destruct (can_bind pf (listening p)), (port_error pf (PORT env)),
    (calls_back_on_error pf); cbn; auto.
Qed.

Lemma run_cons env pf c cs p :
  run env pf (c :: cs) p =
  match perform env pf c p with
  | (Fulfilled _, p') => run env pf cs p'
  | (Rejected e, p') => (Rejected e, p')
  | (Pending, p') => (Pending, p')
  | (Died code, p') => (Died code, p')
  end.
Proof. reflexivity. Qed.

(** An invariant of every operation is an invariant of every sequence. *)
Lemma run_invariant env pf (I : Proc -> Prop) (allowed : Command -> Prop) :
  (forall c p, allowed c -> I p -> I (snd (perform env pf c p))) ->
  forall cs p, Forall allowed cs -> I p -> I (snd (run env pf cs p)).
Proof.
  intros Hstep cs. induction cs as [|c cs IH]; intros p Hall Hp; [exact Hp|].
  apply Forall_cons in Hall as [Hc Hcs]. rewrite run_cons.
  pose proof (Hstep c p Hc Hp) as Hnext.
  destruct (perform env pf c p) as [[[]|e| |code] p']; cbn in *; auto.
Qed.

(** *** The state and the socket *)

Lemma start_keeps_track env pf p :
  calls_back_on_error pf = false ->
  tracks_listener p -> tracks_listener (snd (handleStartServer env pf p)).
Proof.
  intros Hcb Ht. unfold tracks_listener in *. destruct (server p) as [h|] eqn:Hs.
  - rewrite (start_when_running env pf p h Hs). cbn. now rewrite Hs.
  - destruct (can_bind pf (listening p)) eqn:Hb.
    + rewrite (start_when_granted env pf p Hs Hb). cbn.
      rewrite Ht. apply (right_id_L ∅ (∪)).
    + destruct (port_error pf (PORT env)) as [e|] eqn:Hport.
      * rewrite (start_when_thrown env pf p e Hs Hb Hport). cbn. exact Ht.
      * rewrite (start_when_refused env pf p Hs Hb Hport Hcb). cbn. exact Ht.
Qed.

Lemma stop_keeps_track p :
  tracks_listener p -> tracks_listener (snd (handleStopServer p)).
Proof.
  intros Ht. unfold tracks_listener in *. destruct (server p) as [h|] eqn:Hs.
  - rewrite (stop_when_running p h Hs). cbn. rewrite Ht. apply difference_diag_L.
  - rewrite (stop_when_stopped p Hs). cbn. now rewrite Hs.
Qed.

(** X6: as long as cleanup is not among the operations, and on a platform
    where a failed listen leaves its callback uncalled, the controller's
    state and the socket agree after every sequence of starts and stops:
    the server object held in [server] listens, nothing else does, and
    [isServerRunning] answers true exactly when something listens. *)
Theorem state_tracks_the_socket (env : Env) (pf : Platform) (cs : list Command) :
  calls_back_on_error pf = false ->
  Forall (fun c => c <> Cleanup) cs ->
  let p := snd (run env pf cs initial) in
  tracks_listener p
  /\ (isServerRunning p = true <-> listening p <> ∅).
Proof.
  intros Hcb Hcs p.
  assert (tracks_listener p) as Ht.
  { subst p. apply (run_invariant env pf tracks_listener (fun c => c <> Cleanup));
      [|exact Hcs|reflexivity].
    intros c q Hc Hq. destruct c; cbn.
    - now apply start_keeps_track.
    - now apply stop_keeps_track.
    - congruence. }
  split; [exact Ht|].
  unfold tracks_listener in Ht. unfold isServerRunning. rewrite Ht.
  destruct (server p) as [h|]; split; done.
Qed.

Lemma state_tracks_the_socket_witness :
  let p := snd (run sample_env (exclusive_port false) [Start; Stop; Stop; Start] initial) in
  tracks_listener p
  /\ (isServerRunning p = true <-> listening p <> ∅).
Proof.
  apply (state_tracks_the_socket sample_env (exclusive_port false)
           [Start; Stop; Stop; Start] eq_refl).
  repeat constructor; discriminate.
Defined.

Lemma cleanup_empties p :
  owns_listeners p ->
  fst (cleanup p) = Fulfilled tt
  /\ listening (snd (cleanup p)) = ∅
  /\ owns_listeners (snd (cleanup p)).
Proof.
  intros Hown. split; [|split].
  - destruct (server p) as [h|] eqn:Hs.
    + now rewrite (cleanup_when_running p h Hs).
    + now rewrite (cleanup_when_stopped p Hs).
  - destruct (server p) as [h|] eqn:Hs.
    + rewrite (cleanup_when_running p h Hs). cbn.
      apply set_eq. intros h'. split; [|set_solver].
      intros Hin. apply elem_of_difference in Hin as [Hin Hne].
      apply Hown in Hin. rewrite Hs in Hin. set_solver.
    + rewrite (cleanup_when_stopped p Hs). cbn. now apply stopped_listens_nowhere.
  - now apply cleanup_keeps_ownership.
Qed.

(** X7: cleanup can be called in every state the controller reaches. It
    always completes, without an error, and afterwards no server object of
    the process listens. *)
Theorem cleanup_releases_the_port (env : Env) (pf : Platform) (cs : list Command) :
  let p := snd (run env pf cs initial) in
  fst (cleanup p) = Fulfilled tt
  /\ listening (snd (cleanup p)) = ∅.
Proof.
  intros p.
  assert (owns_listeners p) as Hown
    by apply run_keeps_ownership, owns_listeners_initial.
  destruct (cleanup_empties p Hown) as (Hdone & Hnone & _). auto.
Qed.

(** *** The calls on server objects *)

Lemma split_at_last {A} (pre post l : list A) (x y : A) :
  pre ++ x :: post = l ++ [y] ->
  (post = [] /\ pre = l /\ x = y)
  \/ (exists post', post = post' ++ [y] /\ l = pre ++ x :: post').
Proof.
  intros Heq. destruct post as [|z post] using rev_ind.
  - left. apply app_inj_tail in Heq as [-> ->]. auto.
  - right.
    replace (pre ++ x :: post ++ [z]) with ((pre ++ x :: post) ++ [z]) in Heq
      by now rewrite <- app_assoc.
    apply app_inj_tail in Heq as [Hl Hz]. subst. exists post. split; reflexivity.
Qed.

Lemma listen_targets_snoc ops op :
  listen_targets (ops ++ [op]) =
  listen_targets ops ++ match op with Listen h => [h] | Close _ => [] end.
Proof. unfold listen_targets. rewrite flat_map_app. cbn. now rewrite app_nil_r. Qed.

Lemma closes_follow_listens_snoc_listen ops h :
  (forall pre post k, ops = pre ++ Close k :: post -> Listen k ∈ pre) ->
  forall pre post k, ops ++ [Listen h] = pre ++ Close k :: post -> Listen k ∈ pre.
Proof.
  intros Hops pre post k Heq. symmetry in Heq.
  apply split_at_last in Heq as [(_ & _ & Hbad) | (post' & _ & Hin)]; [discriminate|].
  now apply (Hops pre post' k).
Qed.

Lemma closes_follow_listens_snoc_close ops h :
  Listen h ∈ ops ->
  (forall pre post k, ops = pre ++ Close k :: post -> Listen k ∈ pre) ->
  forall pre post k, ops ++ [Close h] = pre ++ Close k :: post -> Listen k ∈ pre.
Proof.
  intros Hh Hops pre post k Heq. symmetry in Heq.
  apply split_at_last in Heq as [(_ & -> & [= ->]) | (post' & _ & Hin)]; [exact Hh|].
  now apply (Hops pre post' k).
Qed.

Lemma start_is_disciplined env pf p :
  disciplined p -> disciplined (snd (handleStartServer env pf p)).
Proof.
  intros (Hseq & Hheld & Hclose). destruct (server p) as [h|] eqn:Hs.
  - rewrite (start_when_running env pf p h Hs). unfold disciplined. cbn.
    rewrite Hs. auto.
  - destruct (start_from_stopped env pf p Hs) as (Hops & Hmade & Hserver).
    unfold disciplined. rewrite Hops, Hmade. split; [|split].
    + rewrite listen_targets_snoc, Hseq, seq_S. reflexivity.
    + intros h Hh. destruct Hserver as [Hnone | Hsome]; [congruence|].
      rewrite Hsome in Hh. injection Hh as <-.
      apply elem_of_app. right. apply list_elem_of_singleton. reflexivity.
    + now apply closes_follow_listens_snoc_listen.
Qed.

Lemma close_is_disciplined p h q :
  disciplined p -> server p = Some h ->
  socket_ops q = socket_ops p ++ [Close h] -> created q = created p ->
  (server q = None \/ server q = Some h) ->
  disciplined q.
Proof.
  intros (Hseq & Hheld & Hclose) Hs Hops Hmade Hserver.
  unfold disciplined. rewrite Hops, Hmade. split; [|split].
  - rewrite listen_targets_snoc, app_nil_r. exact Hseq.
  - intros k Hk. destruct Hserver as [Hnone | Hsome]; [congruence|].
    rewrite Hsome in Hk. injection Hk as <-.
    apply elem_of_app. left. now apply Hheld.
  - apply closes_follow_listens_snoc_close; [now apply Hheld | exact Hclose].
Qed.

Lemma perform_is_disciplined env pf c p :
  disciplined p -> disciplined (snd (perform env pf c p)).
Proof.
  intros Hd. destruct c; cbn [perform].
  - now apply start_is_disciplined.
  - destruct (server p) as [h|] eqn:Hs.
    + pose proof (stop_when_running p h Hs) as E.
      apply (close_is_disciplined p h);
        [exact Hd | exact Hs | now rewrite E | now rewrite E | left; now rewrite E].
    + rewrite (stop_when_stopped p Hs). exact Hd.
  - destruct (server p) as [h|] eqn:Hs.
    + pose proof (cleanup_when_running p h Hs) as E.
      apply (close_is_disciplined p h);
        [exact Hd | exact Hs | now rewrite E | now rewrite E | right; now rewrite E].
    + rewrite (cleanup_when_stopped p Hs). exact Hd.
Qed.

(** X8: the calls the controller makes on server objects. After every
    sequence of starts, stops and cleanups, each listen call was made on a
    server object of its own, created for it (the n-th call on the n-th
    object, none asked to listen twice), and every close call was made on
    an object that had been asked to listen before. *)
Theorem closes_follow_listens (env : Env) (pf : Platform) (cs : list Command) :
  let p := snd (run env pf cs initial) in
  listen_targets (socket_ops p) = seq 0 (created p)
  /\ NoDup (listen_targets (socket_ops p))
  /\ (forall pre post h, socket_ops p = pre ++ Close h :: post -> Listen h ∈ pre).
Proof.
  intros p.
  assert (disciplined p) as (Hseq & _ & Hclose).
  { subst p. apply (run_invariant env pf disciplined (fun _ => True)).
    - intros c q _. apply perform_is_disciplined.
    - now apply Forall_forall.
    - unfold disciplined, initial. cbn. split; [reflexivity|]. split.
      + discriminate.
      + intros [|? ?] post h; discriminate. }
  split; [exact Hseq|]. split; [|exact Hclose].
  rewrite Hseq. apply NoDup_seq.
Qed.

Lemma closes_follow_listens_witness :
  let ops := socket_ops (snd (run sample_env (exclusive_port false)
                                [Start; Cleanup; Cleanup; Stop; Start] initial)) in
  ops = [Listen 0; Close 0; Close 0; Close 0; Listen 1]
  /\ Listen 0%nat ∈ [Listen 0%nat; Close 0%nat].
Proof.
  split; [reflexivity|].
  apply (proj2 (proj2 (closes_follow_listens sample_env (exclusive_port false)
                         [Start; Cleanup; Cleanup; Stop; Start]))
           [Listen 0; Close 0]%nat [Close 0; Listen 1]%nat 0%nat eq_refl).
Defined.

End ServerExtra.

(* ===================================================================== *)
(** * Properties of the request handler, the menu and the signal handler *)
(* ===================================================================== *)

Module CliSpec.
Import Cli.

Section Handler.
Variable env : Env.
Variable adapter : Api.Adapter.
Variable JSON_parse : string -> option value.
Variable JSON_stringify : value -> value.

Lemma read_body_eq a w :
  read_body JSON_parse a w =
  (Fulfilled (chosen_body JSON_parse a),
   {| Api.console := Api.console w ++ body_lines JSON_parse a; Api.wire := Api.wire w |}).
Proof.
  unfold read_body, chosen_body, body_lines.
  destruct (takes_body (method_choice a)).
  - destruct (JSON_parse (body_input a)); unfold resolve; cbn; rewrite ?app_nil_r;
      now destruct w.
  - unfold resolve. rewrite app_nil_r. now destruct w.
Qed.

(** A call through the templates ends in one of two ways. *)
Lemma switch_outcome m endpoint bdy w :
  let sent := Api.outbound env (Api.template_config m endpoint bdy) in
  (exists r, adapter sent = Api.Reply r
             /\ Api.makeRequest_switch env adapter m endpoint bdy w =
                (Fulfilled (data r), Api.after_call w sent []))
  \/ (exists e, Api.makeRequest_switch env adapter m endpoint bdy w =
                (Rejected e, Api.after_call w sent [Api.api_error_line e])).
Proof.
  intros sent. rewrite ApiSpec.switch_eq.
  unfold await, Api.api_request, then_, Api.transmit, effect. fold sent.
  destruct (adapter sent) as [r|msg] eqn:Had.
  - unfold Api.settle.
    destruct (negb (truthy (VNum (status r))) || Api.validateStatus (status r)).
    + left. exists r. split; [reflexivity|].
      unfold Api.after_call. cbn. now rewrite app_nil_r.
    + right. exists (Api.request_failed r). reflexivity.
  - right. exists (Api.no_response msg). reflexivity.
Qed.

(** [makeRequest] once the templates have answered. *)
Lemma makeRequest_fulfilled a w r :
  Api.makeRequest_switch env adapter (method_choice a) (endpoint_input a)
    (chosen_body JSON_parse a)
    {| Api.console := Api.console w ++ body_lines JSON_parse a ++ [announcement a];
       Api.wire := Api.wire w |}
  = (Fulfilled (data r),
     Api.after_call
       {| Api.console := Api.console w ++ body_lines JSON_parse a ++ [announcement a];
          Api.wire := Api.wire w |}
       (request_for env JSON_parse a) []) ->
  makeRequest env adapter JSON_parse JSON_stringify a w =
  (Fulfilled tt,
   {| Api.console := Api.console w ++ body_lines JSON_parse a ++
        [announcement a; LogOut [VStr "Response:"]; LogOut [JSON_stringify (data r)];
         LogOut [VStr ""]];
      Api.wire := Api.wire w ++ [request_for env JSON_parse a] |}).
Proof.
  intros Hcall. unfold makeRequest, await at 1. rewrite read_body_eq.
  unfold await at 1, world_log at 1, effect at 1. cbn [Api.console Api.wire].
  rewrite <- app_assoc. unfold announcement in *.
  unfold await at 1, try_catch, then_, await at 1. rewrite Hcall.
  unfold world_log, effect, await, resolve, Api.after_call. cbn.
  rewrite app_nil_r, <- !app_assoc. reflexivity.
Qed.

Lemma makeRequest_rejected a w e :
  Api.makeRequest_switch env adapter (method_choice a) (endpoint_input a)
    (chosen_body JSON_parse a)
    {| Api.console := Api.console w ++ body_lines JSON_parse a ++ [announcement a];
       Api.wire := Api.wire w |}
  = (Rejected e,
     Api.after_call
       {| Api.console := Api.console w ++ body_lines JSON_parse a ++ [announcement a];
          Api.wire := Api.wire w |}
       (request_for env JSON_parse a) [Api.api_error_line e]) ->
  makeRequest env adapter JSON_parse JSON_stringify a w =
  (Fulfilled tt,
   {| Api.console := Api.console w ++ body_lines JSON_parse a ++
        [announcement a; Api.api_error_line e;
         LogErr [VStr "Request failed:"; VStr (message e)]; LogOut [VStr ""]];
      Api.wire := Api.wire w ++ [request_for env JSON_parse a] |}).
Proof.
  intros Hcall. unfold makeRequest, await at 1. rewrite read_body_eq.
  unfold await at 1, world_log at 1, effect at 1. cbn [Api.console Api.wire].
  rewrite <- app_assoc. unfold announcement in *.
  unfold await at 1, try_catch, then_, await at 1. rewrite Hcall.
  unfold world_log, Api.console_error, effect, await, resolve, Api.after_call. cbn.
  rewrite <- !app_assoc. reflexivity.
Qed.
Lemma request_for_fields a :
  Api.url (request_for env JSON_parse a) = Some (endpoint_input a)
  /\ Api.method (request_for env JSON_parse a) = Some (method_choice a)
  /\ Api.body (request_for env JSON_parse a) =
     Api.body (Api.template_config (method_choice a) (endpoint_input a)
                 (chosen_body JSON_parse a)).
Proof.
  unfold request_for, Api.outbound.
  destruct (ApiExtra.interceptor_keeps_fields env
              (Api.mergeConfig (Api.api_defaults env)
                 (Api.template_config (method_choice a) (endpoint_input a)
                    (chosen_body JSON_parse a)))) as (Hu & Hm & _ & _ & _ & Hb).
  rewrite Hu, Hm, Hb. repeat split.
Qed.

(** *** The request handler *)

(** X9: [makeRequest] never throws. Whatever the user answered, whatever
    the body text and whatever the transport does, the handler completes
    normally, so that the menu goes on, and it has sent exactly one
    request: to the endpoint entered, with the method chosen. *)
Theorem makeRequest_never_throws (a : Answers) (w : Api.World) :
  let result := makeRequest env adapter JSON_parse JSON_stringify a w in
  fst result = Fulfilled tt
  /\ Api.wire (snd result) = Api.wire w ++ [request_for env JSON_parse a]
  /\ Api.url (request_for env JSON_parse a) = Some (endpoint_input a)
  /\ Api.method (request_for env JSON_parse a) = Some (method_choice a).
Proof.
  cbv zeta.
  destruct (switch_outcome (method_choice a) (endpoint_input a) (chosen_body JSON_parse a)
              {| Api.console := Api.console w ++ body_lines JSON_parse a ++ [announcement a];
                 Api.wire := Api.wire w |})
    as [(r & _ & Hcall) | (e & Hcall)].
  - rewrite (makeRequest_fulfilled a w r Hcall). cbn [fst snd Api.wire].
    destruct (request_for_fields a) as (Hu & Hm & _). auto.
  - rewrite (makeRequest_rejected a w e Hcall). cbn [fst snd Api.wire].
    destruct (request_for_fields a) as (Hu & Hm & _). auto.
Qed.

(** X10: a body text that is not JSON. For POST, PUT and PATCH the handler
    then writes "Invalid JSON, using empty object" on the error channel,
    before it announces the request, and sends an empty object as the
    body. *)
Theorem invalid_body_becomes_empty_object (a : Answers) (w : Api.World) :
  takes_body (method_choice a) = true ->
  JSON_parse (body_input a) = None ->
  let result := makeRequest env adapter JSON_parse JSON_stringify a w in
  Api.body (request_for env JSON_parse a) = VObj []
  /\ exists rest,
       Api.console (snd result) =
       Api.console w ++
         LogErr [VStr "Invalid JSON, using empty object"] :: announcement a :: rest.
Proof.
  intros Hbody Hparse. cbv zeta.
  assert (body_lines JSON_parse a = [LogErr [VStr "Invalid JSON, using empty object"]])
    as Hlines by (unfold body_lines; now rewrite Hbody, Hparse).
  split.
  - destruct (request_for_fields a) as (_ & _ & ->).
    unfold chosen_body. rewrite Hbody, Hparse. cbn.
    unfold takes_body in Hbody. now destruct (method_choice a).
  - destruct (switch_outcome (method_choice a) (endpoint_input a)
                (chosen_body JSON_parse a)
                {| Api.console := Api.console w ++ body_lines JSON_parse a ++ [announcement a];
                   Api.wire := Api.wire w |})
      as [(r & _ & Hcall) | (e & Hcall)].
    + rewrite (makeRequest_fulfilled a w r Hcall), Hlines. cbn. eauto.
    + rewrite (makeRequest_rejected a w e Hcall), Hlines. cbn. eauto.
Qed.

(** X11: GET and DELETE never look at the body text. The body prompt is
    not shown for them: whatever text and whatever parser, the handler does
    the same, and the request goes out without a body. *)
Theorem get_and_delete_ignore_the_body (m : Api.Method) (endpoint : string)
    (text text' : string) (parse' : string -> option value) (w : Api.World) :
  m = Api.GET \/ m = Api.DELETE ->
  makeRequest env adapter JSON_parse JSON_stringify (mkAnswers m endpoint text) w
  = makeRequest env adapter parse' JSON_stringify (mkAnswers m endpoint text') w
  /\ Api.body (request_for env JSON_parse (mkAnswers m endpoint text)) = VUndef.
Proof.
  intros Hm. split.
  - now destruct Hm as [-> | ->].
  - destruct (request_for_fields (mkAnswers m endpoint text)) as (_ & _ & ->).
    now destruct Hm as [-> | ->].
Qed.

(** X12: a failed request is reported twice. When the request gets no
    response, or a response with a non-2xx status, the console shows the
    line of the client's interceptor and then the handler's own "Request
    failed:" line with the message of the same error, and the closing empty
    line. *)
Theorem failed_request_is_logged_twice (a : Answers) (w : Api.World) :
  (forall msg, adapter (request_for env JSON_parse a) = Api.NoReply msg ->
     Api.console (snd (makeRequest env adapter JSON_parse JSON_stringify a w)) =
     Api.console w ++ body_lines JSON_parse a ++
       [announcement a;
        LogErr [VStr "API Error:"; VUndef; VStr msg];
        LogErr [VStr "Request failed:"; VStr msg];
        LogOut [VStr ""]])
  /\
  (forall r, adapter (request_for env JSON_parse a) = Api.Reply r ->
     Api.non2xx (status r) ->
     Api.console (snd (makeRequest env adapter JSON_parse JSON_stringify a w)) =
     Api.console w ++ body_lines JSON_parse a ++
       [announcement a;
        LogErr [VStr "API Error:"; VNum (status r);
                js_or (data r) (VStr (message (Api.request_failed r)))];
        LogErr [VStr "Request failed:"; VStr (message (Api.request_failed r))];
        LogOut [VStr ""]]).
Proof.
  split.
  - intros msg Had.
    now rewrite (makeRequest_rejected a w (Api.no_response msg)
                   (ApiSpec.switch_no_response env adapter _ _ _ msg _ Had)).
  - intros r Had Hbad.
    now rewrite (makeRequest_rejected a w (Api.request_failed r)
                   (ApiSpec.switch_non2xx env adapter _ _ _ r _ Had Hbad)).
Qed.

(** X13: a successful request. On a 2xx response the handler writes
    "Response:", the body as [JSON.stringify] renders it, and the closing
    empty line; it writes nothing on the error channel for the request. *)
Theorem successful_request_is_printed (a : Answers) (w : Api.World) (r : Response) :
  adapter (request_for env JSON_parse a) = Api.Reply r ->
  Api.validateStatus (status r) = true ->
  Api.console (snd (makeRequest env adapter JSON_parse JSON_stringify a w)) =
  Api.console w ++ body_lines JSON_parse a ++
    [announcement a; LogOut [VStr "Response:"]; LogOut [JSON_stringify (data r)];
     LogOut [VStr ""]].
Proof.
  intros Had Hok.
  now rewrite (makeRequest_fulfilled a w r
                 (ApiSpec.switch_2xx env adapter _ _ _ r _ Had Hok)).
Qed.
End Handler.

(** *** The menu *)

Lemma in_proc_fst {A} (c : Async Server.Proc A) s :
  fst (in_proc c s) = fst (c (proc_of s)).
Proof. unfold in_proc. now destruct (c (proc_of s)). Qed.

Lemma in_proc_snd {A} (c : Async Server.Proc A) s :
  snd (in_proc c s) = ended (fst (c (proc_of s))) (put_proc (snd (c (proc_of s))) s).
Proof. unfold in_proc. now destruct (c (proc_of s)). Qed.

Lemma proc_of_ended {A} (r : Settled A) s : proc_of (ended r s) = proc_of s.
Proof. now destruct r. Qed.

Lemma in_world_fst {A} (c : Async Api.World A) s :
  fst (in_world c s) = fst (c (world_of s)).
Proof. unfold in_world. now destruct (c (world_of s)). Qed.

Lemma in_world_snd {A} (c : Async Api.World A) s :
  snd (in_world c s) = put_world (snd (c (world_of s))) s.
Proof. unfold in_world. now destruct (c (world_of s)). Qed.

Lemma stop_fulfils p : fst (Server.handleStopServer p) = Fulfilled tt.
Proof.
  destruct (Server.server p) as [h|] eqn:Hs.
  - now rewrite (ServerSpec.stop_when_running p h Hs).
  - now rewrite (ServerSpec.stop_when_stopped p Hs).
Qed.

Lemma cleanup_fulfils p : fst (Server.cleanup p) = Fulfilled tt.
Proof.
  destruct (Server.server p) as [h|] eqn:Hs.
  - now rewrite (ServerSpec.cleanup_when_running p h Hs).
  - now rewrite (ServerSpec.cleanup_when_stopped p Hs).
Qed.

Lemma on_SIGINT_eq s :
  on_SIGINT s =
  (Pending,
   {| shown := Server.console (snd (Server.cleanup (proc_of s)));
      requests := requests s;
      held := Server.server (snd (Server.cleanup (proc_of s)));
      made := Server.created (snd (Server.cleanup (proc_of s)));
      bound := Server.listening (snd (Server.cleanup (proc_of s)));
      calls := Server.socket_ops (snd (Server.cleanup (proc_of s)));
      exit_code := Some 0 |}).
Proof.
  unfold on_SIGINT, await, in_proc. pose proof (cleanup_fulfils (proc_of s)) as Hdone.
  destruct (Server.cleanup (proc_of s)) as [[[]|e| |code] p]; cbn in Hdone; try discriminate.
  reflexivity.
Qed.

Section Menu.
Variable env : Env.
Variable adapter : Api.Adapter.
Variable JSON_parse : string -> option value.
Variable JSON_stringify : value -> value.
Variable pf : Server.Platform.

#[local] Abbreviation route := (Cli.route env adapter JSON_parse JSON_stringify pf).
#[local] Abbreviation mainMenu := (Cli.mainMenu env adapter JSON_parse JSON_stringify pf).
#[local] Abbreviation app := (Cli.app env adapter JSON_parse JSON_stringify pf).

Lemma route_exit s :
  route ChooseExit s =
  (Pending,
   {| shown := Server.console (snd (Server.cleanup (proc_of s))) ++ [LogOut [VStr "Goodbye!"]];
      requests := requests s;
      held := Server.server (snd (Server.cleanup (proc_of s)));
      made := Server.created (snd (Server.cleanup (proc_of s)));
      bound := Server.listening (snd (Server.cleanup (proc_of s)));
      calls := Server.socket_ops (snd (Server.cleanup (proc_of s)));
      exit_code := Some 0 |}).
Proof.
  unfold Cli.route, await, in_proc. pose proof (cleanup_fulfils (proc_of s)) as Hdone.
  destruct (Server.cleanup (proc_of s)) as [[[]|e| |code] p]; cbn in Hdone; try discriminate.
  reflexivity.
Qed.

Lemma route_request a s :
  route (ChooseRequest a) s =
  (Fulfilled tt,
   put_world (snd (makeRequest env adapter JSON_parse JSON_stringify a (world_of s))) s).
Proof.
  unfold Cli.route, in_world.
  pose proof (proj1 (makeRequest_never_throws env adapter JSON_parse JSON_stringify a
                       (world_of s))) as Hdone.
  destruct (makeRequest env adapter JSON_parse JSON_stringify a (world_of s)) as [r w].
  cbn in Hdone. now rewrite Hdone.
Qed.

Lemma route_stop s :
  route ChooseStopServer s =
  (Fulfilled tt, put_proc (snd (Server.handleStopServer (proc_of s))) s).
Proof.
  unfold Cli.route, in_proc. pose proof (stop_fulfils (proc_of s)) as Hdone.
  destruct (Server.handleStopServer (proc_of s)) as [r p]. cbn in Hdone. now rewrite Hdone.
Qed.

(** The only error that comes out of a round is the one [listen] threw. *)
Lemma route_rejection action s e :
  fst (route action s) = Rejected e ->
  Server.port_error pf (Server.PORT env) = Some e.
Proof.
  destruct action as [a| | |].
  - now rewrite route_request.
  - unfold Cli.route. rewrite in_proc_fst. intros He.
    now apply ServerSpec.start_rejection in He as (_ & _ & He).
  - now rewrite route_stop.
  - now rewrite route_exit.
Qed.

Lemma mainMenu_cons action rest s :
  mainMenu (action :: rest) s =
  match route action s with
  | (Fulfilled _, s') => mainMenu rest s'
  | (Rejected e, s') => (Rejected e, s')
  | (Pending, s') => (Pending, s')
  | (Died code, s') => (Died code, s')
  end.
Proof. reflexivity. Qed.

Lemma start_ends_well s :
  Server.owns_listeners (proc_of s) -> exit_code s = None ->
  ends_well (fst (route ChooseStartServer s)) (snd (route ChooseStartServer s)).
Proof.
  intros Hown Hrun. unfold Cli.route. rewrite in_proc_fst, in_proc_snd.
  unfold ends_well. rewrite proc_of_ended. split.
  { apply (ServerSpec.start_keeps_ownership env pf (proc_of s) Hown). }
  destruct (Server.server (proc_of s)) as [h|] eqn:Hs.
  { rewrite (ServerSpec.start_when_running env pf _ h Hs). exact Hrun. }
  pose proof (ServerSpec.stopped_listens_nowhere (proc_of s) Hown Hs) as Hempty.
  destruct (Server.can_bind pf (Server.listening (proc_of s))) eqn:Hb.
  { rewrite (ServerSpec.start_when_granted env pf _ Hs Hb). exact Hrun. }
  destruct (Server.port_error pf (Server.PORT env)) as [e|] eqn:Hport.
  { rewrite (ServerSpec.start_when_thrown env pf _ e Hs Hb Hport). cbn in *. auto. }
  destruct (Server.calls_back_on_error pf) eqn:Hcb.
  - rewrite (ServerSpec.start_when_called_back env pf _ Hs Hb Hport Hcb). exact Hrun.
  - rewrite (ServerSpec.start_when_refused env pf _ Hs Hb Hport Hcb). cbn in *. auto.
Qed.

Lemma route_ends_well action s :
  Server.owns_listeners (proc_of s) -> exit_code s = None ->
  ends_well (fst (route action s)) (snd (route action s)).
Proof.
  intros Hown Hrun. destruct action as [a| | |].
  - rewrite route_request. split; [exact Hown | exact Hrun].
  - now apply start_ends_well.
  - rewrite route_stop. split; [|exact Hrun].
    apply (ServerSpec.stop_keeps_ownership (proc_of s) Hown).
  - rewrite route_exit.
    destruct (ServerExtra.cleanup_empties (proc_of s) Hown) as (_ & Hnone & Hkeeps).
    split; [exact Hkeeps|]. right. cbn. auto.
Qed.

Lemma mainMenu_ends_well script :
  forall s, Server.owns_listeners (proc_of s) -> exit_code s = None ->
            ends_well (fst (mainMenu script s)) (snd (mainMenu script s)).
Proof.
  induction script as [|action rest IH]; intros s Hown Hrun.
  - split; [exact Hown | now left].
  - rewrite mainMenu_cons.
    pose proof (route_ends_well action s Hown Hrun) as Hround.
    destruct (route action s) as [[[]|e| |code] s']; cbn [fst snd] in *;
      try exact Hround.
    destruct Hround as [Hown' Hrun']. now apply IH.
Qed.

Lemma app_keeps_state script : settled_state (snd (app script initial_app)).
Proof.
  unfold Cli.app, await, in_proc. cbn [Server.console_log effect ended fst snd].
  match goal with
  | |- context [unhandled _ ?s0] => set (start := s0)
  end.
  assert (Server.owns_listeners (proc_of start)) as Hown.
  { intros h Hh. cbn in Hh. now apply not_elem_of_empty in Hh. }
  pose proof (mainMenu_ends_well script start Hown eq_refl) as [Hkeeps Hend].
  unfold unhandled.
  destruct (mainMenu script start) as [[[]|e| |code] s']; cbn [fst snd] in *.
  - split; [exact Hkeeps | now left].
  - destruct Hend as [_ Hnone]. split; [exact Hkeeps|]. right. cbn. auto.
  - split; [exact Hkeeps|]. destruct Hend as [Hnone | [Hzero Hempty]]; auto.
  - destruct Hend as (_ & Hone & Hempty). split; [exact Hkeeps|]. auto.
Qed.

Lemma mainMenu_never_fulfils script :
  forall s v, fst (mainMenu script s) <> Fulfilled v.
Proof.
  induction script as [|action rest IH]; intros s v; [discriminate|].
  rewrite mainMenu_cons.
  destruct (route action s) as [[[]|e| |code] s']; try discriminate. apply IH.
Qed.

Lemma mainMenu_rejection script :
  forall s e, fst (mainMenu script s) = Rejected e ->
              Server.port_error pf (Server.PORT env) = Some e.
Proof.
  induction script as [|action rest IH]; intros s e; [discriminate|].
  rewrite mainMenu_cons. pose proof (route_rejection action s) as Hround.
  destruct (route action s) as [[[]|e'| |code] s']; cbn [fst] in *; try discriminate.
  - apply IH.
  - intros [= ->]. now apply Hround.
Qed.

(** X14: what comes out of the menu loop. The promise of [mainMenu] is
    never fulfilled, and the only error it is ever rejected with is one
    that [listen] threw in a start, which [handleStartServer] does not
    catch: on a platform whose [listen] accepts the port, no error comes
    out of the loop, whatever the requests do. *)
Theorem mainMenu_rejects_only_by_listen (script : list Choice) (s : App) :
  (forall v, fst (mainMenu script s) <> Fulfilled v)
  /\ (forall e, fst (mainMenu script s) = Rejected e ->
                Server.port_error pf (Server.PORT env) = Some e)
  /\ (Server.port_error pf (Server.PORT env) = None ->
      forall e, fst (mainMenu script s) <> Rejected e).
Proof.
  split; [|split].
  - apply mainMenu_never_fulfils.
  - apply mainMenu_rejection.
  - intros Hnone e He. apply mainMenu_rejection in He. congruence.
Qed.

(** X15: how the process ends. Whatever the user chose, the process has
    not ended, or it has ended with code 0 or with code 1, and once it has
    ended no server object of the process listens; at no point does more
    than one listen. *)
Theorem exit_leaves_no_listener (script : list Choice) :
  let s := snd (app script initial_app) in
  (exit_code s = None \/ exit_code s = Some 0 \/ exit_code s = Some 1)
  /\ (exit_code s <> None -> bound s = ∅)
  /\ (size (bound s) <= 1)%nat.
Proof.
  intros s. destruct (app_keeps_state script) as (Hown & Hexit). fold s in Hown, Hexit.
  split; [|split].
  - destruct Hexit as [Hnone | [[Hzero | Hone] _]]; auto.
  - intros Hended. destruct Hexit as [Hnone | [_ Hempty]]; [congruence | exact Hempty].
  - apply (ServerSpec.owner_bounds_listeners (proc_of s) Hown).
Qed.

(** X16: nothing runs after the exit choice. The choices that follow an
    exit in the script have no effect at all: the process ends at
    [process.exit], and neither a request nor a start is made for them. *)
Theorem nothing_runs_after_exit (script rest : list Choice) (s : App) :
  ChooseExit ∈ script ->
  mainMenu (script ++ rest) s = mainMenu script s.
Proof.
  revert s. induction script as [|action script IH]; intros s Hin.
  - now apply elem_of_nil in Hin.
  - rewrite <- app_comm_cons, !mainMenu_cons.
    apply elem_of_cons in Hin as [<- | Hin].
    + now rewrite route_exit.
    + destruct (route action s) as [[[]|e| |code] s']; auto.
Qed.

(** X17: the SIGINT handler. In every state the application reaches, the
    handler closes the listener if one is held, sends no request, and ends
    the process with code 0, with no server object listening. *)
Theorem sigint_releases_the_port (script : list Choice) :
  let s := snd (app script initial_app) in
  fst (on_SIGINT s) = Pending
  /\ exit_code (snd (on_SIGINT s)) = Some 0
  /\ bound (snd (on_SIGINT s)) = ∅
  /\ requests (snd (on_SIGINT s)) = requests s.
Proof.
  intros s. destruct (app_keeps_state script) as (Hown & _). fold s in Hown.
  rewrite on_SIGINT_eq. cbn.
  destruct (ServerExtra.cleanup_empties (proc_of s) Hown) as (_ & Hnone & _). auto.
Qed.

End Menu.

(** *** The properties on sample inputs *)

Lemma invalid_body_witness :
  Api.body (request_for Api.sample_env sample_parse sample_answers) = VObj []
  /\ exists rest,
       Api.console (snd (makeRequest Api.sample_env
                           (Api.always (Api.Reply Api.not_found))
                           sample_parse sample_stringify sample_answers Api.quiet)) =
       Api.console Api.quiet ++
         LogErr [VStr "Invalid JSON, using empty object"] ::
         announcement sample_answers :: rest.
Proof.
  apply (invalid_body_becomes_empty_object Api.sample_env
           (Api.always (Api.Reply Api.not_found)) sample_parse sample_stringify
           sample_answers Api.quiet eq_refl eq_refl).
Defined.

Lemma get_ignores_body_witness :
  makeRequest Api.sample_env (Api.always (Api.Reply Api.not_found))
    sample_parse sample_stringify (mkAnswers Api.GET "/users" "{name") Api.quiet
  = makeRequest Api.sample_env (Api.always (Api.Reply Api.not_found))
      (fun _ => Some VNull) sample_stringify (mkAnswers Api.GET "/users" "{}") Api.quiet
  /\ Api.body (request_for Api.sample_env sample_parse
                 (mkAnswers Api.GET "/users" "{name")) = VUndef.
Proof.
  apply (get_and_delete_ignore_the_body Api.sample_env
           (Api.always (Api.Reply Api.not_found)) sample_parse sample_stringify
           Api.GET "/users" "{name" "{}" (fun _ => Some VNull) Api.quiet).
  left. reflexivity.
Defined.

Lemma failed_request_witness :
  Api.console (snd (makeRequest Api.sample_env
                      (Api.always (Api.NoReply "timeout of 30000ms exceeded"))
                      sample_parse sample_stringify
                      (mkAnswers Api.DELETE "/users/7" "") Api.quiet)) =
  [announcement (mkAnswers Api.DELETE "/users/7" "");
   LogErr [VStr "API Error:"; VUndef; VStr "timeout of 30000ms exceeded"];
   LogErr [VStr "Request failed:"; VStr "timeout of 30000ms exceeded"];
   LogOut [VStr ""]].
Proof.
  apply (proj1 (failed_request_is_logged_twice Api.sample_env
                  (Api.always (Api.NoReply "timeout of 30000ms exceeded"))
                  sample_parse sample_stringify
                  (mkAnswers Api.DELETE "/users/7" "") Api.quiet)
           "timeout of 30000ms exceeded" eq_refl).
Defined.

Lemma successful_request_witness :
  Api.console (snd (makeRequest Api.sample_env
                      (Api.always (Api.Reply {| status := 200; data := VArr [] |}))
                      sample_parse sample_stringify
                      (mkAnswers Api.PATCH "/users/7" "{}") Api.quiet)) =
  [announcement (mkAnswers Api.PATCH "/users/7" "{}");
   LogOut [VStr "Response:"]; LogOut [VArr []]; LogOut [VStr ""]].
Proof.
  apply (successful_request_is_printed Api.sample_env
           (Api.always (Api.Reply {| status := 200; data := VArr [] |}))
           sample_parse sample_stringify
           (mkAnswers Api.PATCH "/users/7" "{}") Api.quiet
           {| status := 200; data := VArr [] |} eq_refl eq_refl).
Defined.

Lemma nothing_runs_after_exit_witness :
  mainMenu Api.sample_env (Api.always (Api.Reply Api.not_found)) sample_parse
    sample_stringify sample_platform
    ([ChooseStartServer; ChooseExit] ++ [ChooseRequest sample_answers; ChooseStartServer])
    initial_app
  = mainMenu Api.sample_env (Api.always (Api.Reply Api.not_found)) sample_parse
      sample_stringify sample_platform [ChooseStartServer; ChooseExit] initial_app.
Proof.
  apply (nothing_runs_after_exit Api.sample_env (Api.always (Api.Reply Api.not_found))
           sample_parse sample_stringify sample_platform
           [ChooseStartServer; ChooseExit]
           [ChooseRequest sample_answers; ChooseStartServer] initial_app).
  apply elem_of_cons. right. apply elem_of_cons. left. reflexivity.
Defined.

Lemma exit_witness :
  exit_code (snd (app Api.sample_env (Api.always (Api.Reply Api.not_found))
                    sample_parse sample_stringify sample_platform
                    [ChooseStartServer; ChooseRequest sample_answers; ChooseExit]
                    initial_app)) = Some 0
  /\ bound (snd (app Api.sample_env (Api.always (Api.Reply Api.not_found))
                   sample_parse sample_stringify sample_platform
                   [ChooseStartServer; ChooseRequest sample_answers; ChooseExit]
                   initial_app)) = ∅
  /\ exit_code (snd (app Api.sample_env (Api.always (Api.Reply Api.not_found))
                       sample_parse sample_stringify (Server.port_in_use false)
                       [ChooseStartServer; ChooseExit] initial_app)) = Some 1.
Proof.
  assert (exit_code (snd (app Api.sample_env (Api.always (Api.Reply Api.not_found))
                            sample_parse sample_stringify sample_platform
                            [ChooseStartServer; ChooseRequest sample_answers; ChooseExit]
                            initial_app)) = Some 0) as Hexit by reflexivity.
  split; [exact Hexit|]. split; [|reflexivity].
  apply (proj1 (proj2 (exit_leaves_no_listener Api.sample_env
                         (Api.always (Api.Reply Api.not_found))
                         sample_parse sample_stringify sample_platform
                         [ChooseStartServer; ChooseRequest sample_answers; ChooseExit]))).
  rewrite Hexit. discriminate.
Defined.

Lemma mainMenu_rejection_witness :
  fst (mainMenu Server.port_99999 (Api.always (Api.Reply Api.not_found)) sample_parse
         sample_stringify Server.checks_port_range
         [ChooseRequest sample_answers; ChooseStartServer; ChooseExit] initial_app)
  = Rejected Server.bad_port
  /\ forall e,
       fst (mainMenu Api.sample_env (Api.always (Api.Reply Api.not_found)) sample_parse
              sample_stringify sample_platform
              [ChooseRequest sample_answers; ChooseStartServer] initial_app)
       <> Rejected e.
Proof.
  split; [reflexivity|].
  apply (proj2 (proj2 (mainMenu_rejects_only_by_listen Api.sample_env
                         (Api.always (Api.Reply Api.not_found)) sample_parse
                         sample_stringify sample_platform
                         [ChooseRequest sample_answers; ChooseStartServer] initial_app))
           eq_refl).
Defined.

End CliSpec.
